(** * confined_water.free_energy: spatial distribution of atoms on an interface

    A shallow embedding of [src/confined_water/free_energy.py].

    - numpy scalars are kept abstract ([Scalar]): the pipelines only use the
      four operations, square root, comparison and a few numpy functions.
      Two instances are given: IEEE binary64 ([f64], Rocq's primitive floats)
      for concrete runs, and exact real arithmetic ([Rs]) for the analytic
      properties.
    - The MDAnalysis universe is a mutable object: [universe.atoms.positions]
      is rewritten in place by the pipelines and replaced whenever the
      trajectory iterator loads a frame.  It is modelled as a state ([world])
      threaded through a state-and-exception monad; every in-place mutation
      is recorded in a chronological [trace].
    - Python exceptions are values of [pyerror]. *)

From Stdlib Require Import String ZArith List Bool Lia Permutation Reals Lra PrimFloat.
Import ListNotations.

Set Implicit Arguments.

(** ** Python exceptions and results *)

Inductive pyerror : Type :=
| IndexError
| ValueError
| TypeError
| ZeroDivisionError.

Inductive result (A : Type) : Type :=
| Ok (a : A)
| Err (e : pyerror).

Arguments Ok {A} a.
Arguments Err {A} e.

Definition is_ok {A} (r : result A) : bool :=
  match r with Ok _ => true | Err _ => false end.

(** ** Scalars *)

(** What the code needs from numpy's float64. [leb a b] is [a <= b];
    numpy's [a >= b] is [leb b a]. *)
Record Scalar : Type := {
  num :> Type;
  zero : num;
  one : num;
  add : num -> num -> num;
  sub : num -> num -> num;
  mul : num -> num -> num;
  div : num -> num -> num;
  opp : num -> num;
  sqrt : num -> num;
  leb : num -> num -> bool;
  of_nat : nat -> num
}.

(** numpy functions that are not arithmetic: [np.pi], [np.arccos],
    [np.arctan2] and [np.argsort]. *)
Record Numpy (F : Scalar) : Type := {
  pi : F;
  arccos : F -> F;
  arctan2 : F -> F -> F;
  argsort : list F -> list nat
}.

(** ** Python slicing *)

(** Normalisation of one bound of [l[start:stop]] for a sequence of
    length [n]: a negative bound counts from the end, then the bound is
    clamped to [0, n]. *)
Definition py_bound (i : Z) (n : nat) : nat :=
  let j := if (i <? 0)%Z then (i + Z.of_nat n)%Z else i in
  Z.to_nat (Z.max 0 (Z.min j (Z.of_nat n))).

(** [l[start:stop]] *)
Definition py_slice {A} (start stop : Z) (l : list A) : list A :=
  let a := py_bound start (length l) in
  let b := py_bound stop (length l) in
  firstn (b - a) (skipn a l).

(** Every [k]-th element, the first one after [skip] elements. *)
Fixpoint every_nth {A} (k skip : nat) (l : list A) : list A :=
  match l with
  | [] => []
  | x :: r =>
      match skip with
      | O => x :: every_nth k (k - 1) r
      | S s => every_nth k s r
      end
  end.

(** [l[::step]] of a sequence; a zero step raises ValueError, a negative
    one walks backwards from the last element.  The trajectory iterators
    treat a zero step in their own way: see [frames_of], which comes here
    only with a step that is not zero. *)
Definition py_stride {A} (step : Z) (l : list A) : result (list A) :=
  if (step =? 0)%Z then Err ValueError
  else if (0 <? step)%Z then Ok (every_nth (Z.to_nat step) 0 l)
  else Ok (every_nth (Z.to_nat (- step)) 0 (rev l)).

(** [int(a / b)] on Python ints: true division, truncated towards zero. *)
Definition py_int_div (a b : Z) : result Z :=
  if (b =? 0)%Z then Err ZeroDivisionError else Ok (Z.quot a b).

(** Python list indexing [l[i]] with a non-negative index. *)
Definition py_nth {A} (l : list A) (i : nat) : result A :=
  match nth_error l i with
  | Some x => Ok x
  | None => Err IndexError
  end.

(** [set(pbc_indices) ^ set([0, 1, 2])] as a list: the axes of [0, 1, 2]
    that are not periodic, in increasing order, followed by the indices of
    [pbc_indices] outside [0, 1, 2] (each once). *)
Definition mem_nat (a : nat) (l : list nat) : bool := existsb (Nat.eqb a) l.

Definition set_symdiff_012 (pbc : list nat) : list nat :=
  filter (fun a => negb (mem_nat a pbc)) [0; 1; 2]
  ++ nodup Nat.eq_dec (filter (fun a => negb (mem_nat a [0; 1; 2])) pbc).

(** Indices of the entries of a boolean mask that are true: [np.where]. *)
Fixpoint where_from (i : nat) (mask : list bool) : list nat :=
  match mask with
  | [] => []
  | b :: r => if b then i :: where_from (S i) r else where_from (S i) r
  end.

Definition np_where (mask : list bool) : list nat := where_from 0 mask.

Section Arrays.

Variable F : Scalar.

(** A position, or any 3-vector. *)
Definition vec3 : Type := (F * F * F)%type.

Definition vzero : vec3 := (zero F, zero F, zero F).

(** [v[i]] for [i] in [0, 1, 2]. *)
Definition vget (v : vec3) (i : nat) : F :=
  match v, i with
  | (x, _, _), 0 => x
  | (_, y, _), 1 => y
  | (_, _, z), _ => z
  end.

Definition vmap2 (f : F -> F -> F) (a b : vec3) : vec3 :=
  match a, b with
  | (a0, a1, a2), (b0, b1, b2) => (f a0 b0, f a1 b1, f a2 b2)
  end.

Definition vsub : vec3 -> vec3 -> vec3 := vmap2 (sub F).
Definition vadd : vec3 -> vec3 -> vec3 := vmap2 (add F).

(** 3x3 matrix, by rows. *)
Definition mat3 : Type := (vec3 * vec3 * vec3)%type.

Definition vdot (a b : vec3) : F :=
  match a, b with
  | (a0, a1, a2), (b0, b1, b2) =>
      add F (add F (mul F a0 b0) (mul F a1 b1)) (mul F a2 b2)
  end.

Definition mat_vec (m : mat3) (v : vec3) : vec3 :=
  match m with
  | (r0, r1, r2) => (vdot r0 v, vdot r1 v, vdot r2 v)
  end.

Definition sum_list (l : list F) : F := fold_left (add F) l (zero F).

(** [np.linalg.norm] of a 1-D array: square root of the sum of squares. *)
Definition norm (l : list F) : F := sqrt F (sum_list (map (fun x => mul F x x) l)).

(** Fancy indexing of a 3-vector by a list of axes: [v[idx]]. *)
Definition vtake (idx : list nat) (v : vec3) : list F := map (vget v) idx.

(** A 2-D array: its number of columns and its rows. *)
Record arr2 : Type := { ncols : nat; rows : list (list F) }.

(** [positions[:, idx]] for a list of axes. *)
Definition take_cols (idx : list nat) (pos : list vec3) : arr2 :=
  {| ncols := length idx; rows := map (vtake idx) pos |}.

(** [a[:, c]] for one column: IndexError when the array has no such
    column, whatever its number of rows. *)
Definition column (a : arr2) (c : nat) : result (list F) :=
  if c <? ncols a then Ok (map (fun r => nth c r (zero F)) (rows a))
  else Err IndexError.

(** [np.column_stack((a, b))] of two 1-D arrays. *)
Definition column_stack (a b : list F) : result arr2 :=
  if length a =? length b
  then Ok {| ncols := 2; rows := map (fun p => [fst p; snd p]) (combine a b) |}
  else Err ValueError.

(** Elements of [l] at the positions [idx]; None when one is out of range. *)
Fixpoint gather {A} (l : list A) (idx : list nat) : option (list A) :=
  match idx with
  | [] => Some []
  | i :: r =>
      match nth_error l i, gather l r with
      | Some x, Some xs => Some (x :: xs)
      | _, _ => None
      end
  end.

(** The same, for indices known to be in range. *)
Definition select {A} (d : A) (l : list A) (idx : list nat) : list A :=
  map (fun i => nth i l d) idx.

(** [np.clip(x, lo, hi)], that is [minimum(maximum(x, lo), hi)]. *)
Definition np_clip (x lo hi : F) : F :=
  let m := if leb F lo x then x else if leb F x lo then lo else x in
  if leb F m hi then m else if leb F hi m then hi else m.

End Arrays.

(** ** The universe, its mutable position buffer, and the monad *)

Section Pipeline.

Variable F : Scalar.
Variable N : Numpy F.

(** External collaborators: the cell returned by
    [topology.get_cell_lengths_and_angles()], MDAnalysis'
    [atoms.pack_into_box(box, inplace=True)], and [utils.rotation_matrix]
    (a module of this package whose source is not part of the analysed
    files; no property below depends on what it computes). *)
Variable Cell : Type.
Variable pack_into_box : Cell -> list (vec3 F) -> list (vec3 F).
Variable rotation_matrix : vec3 F -> F -> mat3 F.

(** The static part of an MDAnalysis universe: atom names, masses, and the
    frames of the trajectory (one position per atom). *)
Record universe : Type := {
  names : list string;
  masses : list F;
  trajectory : list (list (vec3 F))
}.

(** In-place mutations of [universe.atoms.positions]. *)
Inductive event : Type :=
| EvLoadFrame (i : nat)            (* the trajectory iterator loads frame i *)
| EvPack                           (* atoms.pack_into_box(..., inplace=True) *)
| EvTranslate (delta : vec3 F)     (* positions -= translation_from_frame0 *)
| EvRecenter                       (* positions -= COM *)
| EvRotate                         (* positions = matmul(R, positions.T).T *)
| EvRestore.                       (* positions += COM *)

(** The mutable part: the positions of the current timestep, and the
    mutations performed so far, oldest first. *)
Record world : Type := {
  positions : list (vec3 F);
  trace : list event
}.

Definition M (A : Type) : Type := world -> result A * world.

Definition ret {A} (a : A) : M A := fun w => (Ok a, w).

Definition raise {A} (e : pyerror) : M A := fun w => (Err e, w).

Definition bind {A B} (m : M A) (k : A -> M B) : M B :=
  fun w =>
    match m w with
    | (Ok a, w') => k a w'
    | (Err e, w') => (Err e, w')
    end.

Definition lift {A} (r : result A) : M A :=
  match r with
  | Ok a => ret a
  | Err e => raise e
  end.

Notation "x <- m ;; k" := (bind m (fun x => k))
  (at level 61, m at next level, right associativity).
Notation "m ;;; k" := (bind m (fun _ => k))
  (at level 61, right associativity).

(** [universe.atoms.positions] *)
Definition get_positions : M (list (vec3 F)) := fun w => (Ok (positions w), w).

(** An in-place update of the position buffer, recorded in the trace. *)
Definition mutate (ev : event) (f : list (vec3 F) -> list (vec3 F)) : M unit :=
  fun w => (Ok tt, {| positions := f (positions w); trace := trace w ++ [ev] |}).

(** ** AtomGroups *)

(** [universe.select_atoms("name n1 n2 ...")]: the indices of the atoms
    whose name is one of the given ones, in increasing order. *)
Definition select_atoms (u : universe) (sel : list string) : list nat :=
  filter (fun i => existsb (String.eqb (nth i (names u) EmptyString)) sel)
         (seq 0 (length (names u))).

(** [universe.atoms]: every atom. *)
Definition all_atoms (u : universe) : list nat := seq 0 (length (names u)).

(** [group.positions] in the current timestep. *)
Definition group_positions (g : list nat) : M (list (vec3 F)) :=
  pos <- get_positions ;; ret (select (vzero F) pos g).

(** Mass-weighted mean of the positions. *)
Definition weighted_mean (ms : list F) (ps : list (vec3 F)) : vec3 F :=
  let total := sum_list F ms in
  let comp a := div F (sum_list F (map (fun mp => mul F (fst mp) (vget (snd mp) a))
                                       (combine ms ps))) total in
  (comp 0, comp 1, comp 2).

Definition com_of (u : universe) (g : list nat) (pos : list (vec3 F)) : vec3 F :=
  weighted_mean (select (zero F) (masses u) g) (select (vzero F) pos g).

(** [group.center_of_mass()].  For an empty group the quotient is 0/0;
    releases of MDAnalysis from 2.4 on refuse an empty group with a
    ValueError instead, which is not modelled: what is proved below about
    the error of a run is proved for groups that are not empty, or leaves
    the error open. *)
Definition center_of_mass (u : universe) (g : list nat) : M (vec3 F) :=
  pos <- get_positions ;; ret (com_of u g pos).

(** [universe.atoms.pack_into_box(box=topology.get_cell_lengths_and_angles(),
    inplace=True)] *)
Definition pack (topology : Cell) : M unit :=
  mutate EvPack (pack_into_box topology).

(** ** Setup shared by both pipelines *)

(** [periodic_vector = np.zeros(3); periodic_vector[pbc_indices] = 1]:
    IndexError when an index is not an axis of a 3-vector.  Indices are
    natural numbers here: the negative indices -1, -2, -3 that numpy reads
    from the end are outside the model. *)
Definition periodic_vector_of (pbc_indices : list nat) : result (vec3 F) :=
  if forallb (fun a => a <? 3) pbc_indices
  then
    let c a := if mem_nat a pbc_indices then one F else zero F in
    Ok (c 0, c 1, c 2)
  else Err IndexError.

(** The bounds of [universe.trajectory[start_frame:end_frame]] as the
    trajectory reader normalises them for [n] frames. *)
Definition md_start (start_frame : Z) (n : nat) : Z :=
  if (start_frame <? 0)%Z then Z.max 0 (start_frame + Z.of_nat n) else start_frame.

Definition md_stop (end_frame : Z) (n : nat) : Z :=
  if (end_frame <? 0)%Z then (end_frame + Z.of_nat n)%Z
  else Z.min end_frame (Z.of_nat n).

(** A slice from frame 0 to the last frame is handed back as an iterator
    over the whole trajectory; any other slice as a sliced iterator. *)
Definition whole_trajectory (start_frame end_frame : Z) (n : nat) : bool :=
  ((md_start start_frame n =? 0) && (md_stop end_frame n =? Z.of_nat n))%Z.

(** The frames visited by
    [(universe.trajectory[start_frame:end_frame])[::frame_frequency]].
    A zero stride raises ValueError when the first slice is the whole
    trajectory (the stride then goes to the reader, which refuses it).  A
    sliced iterator does not refuse it: it computes with
    [frame.step or 1], and the frames listed here for that case are those
    of stride 1.  The properties below that involve a zero stride are about
    the whole trajectory, or about a run that raises ahead of its loop. *)
Definition frames_of (u : universe) (start_frame end_frame frame_frequency : Z)
  : result (list nat) :=
  let n := length (trajectory u) in
  let sliced := py_slice start_frame end_frame (seq 0 n) in
  if (frame_frequency =? 0)%Z
  then if whole_trajectory start_frame end_frame n
       then Err ValueError
       else Ok sliced
  else py_stride frame_frequency sliced.

(** One step of the trajectory iterator: frame [i] replaces the positions
    of the current timestep. *)
Definition load_frame (u : universe) (i : nat) : M unit :=
  mutate (EvLoadFrame i) (fun _ => nth i (trajectory u) []).

(** [for count_frames, frames in enumerate(...): body] with the loop
    variables [acc] threaded through the iterations. *)
Fixpoint for_frames {A} (u : universe) (body : nat -> A -> M A)
         (count_frames : nat) (frames : list nat) (acc : A) : M A :=
  match frames with
  | [] => ret acc
  | i :: rest =>
      load_frame u i ;;;
      acc' <- body count_frames acc ;;
      for_frames u body (S count_frames) rest acc'
  end.


(** ** Flat interface: two periodic directions *)

(** The two running lists of liquid coordinates. *)
Record contact_acc : Type := {
  liquid_contact_coord1 : list F;
  liquid_contact_coord2 : list F
}.

Record slab_acc : Type := {
  slab_liquid : contact_acc;
  solid_all : list (list (list F))    (* shape (n, len(solid_atoms), 2) *)
}.

(** [np.zeros((n, s, 2))]: ValueError for a negative dimension. *)
Definition np_zeros3 (n : Z) (s : nat) : result (list (list (list F))) :=
  if (n <? 0)%Z then Err ValueError
  else Ok (repeat (repeat [zero F; zero F] s) (Z.to_nat n)).

Fixpoint set_nth {A} (i : nat) (x : A) (l : list A) : list A :=
  match l, i with
  | [], _ => []
  | _ :: r, O => x :: r
  | y :: r, S j => y :: set_nth j x r
  end.

(** [solid_all[count_frames] = x]: IndexError when the first axis has no
    such index; otherwise [x] must broadcast to the shape (s, 2), which
    needs 2 columns, or 1 column that is then repeated. *)
Definition assign_block (blocks : list (list (list F))) (i : nat) (x : arr2 F)
  : result (list (list (list F))) :=
  if i <? length blocks then
    if ncols x =? 2 then Ok (set_nth i (rows x) blocks)
    else if ncols x =? 1
    then Ok (set_nth i (map (fun r => [nth 0 r (zero F); nth 0 r (zero F)]) (rows x)) blocks)
    else Err ValueError
  else Err IndexError.

(** [np.concatenate(solid_all)] along the first axis: ValueError when
    there is no block to concatenate. *)
Definition np_concatenate (blocks : list (list (list F))) : result (arr2 F) :=
  match blocks with
  | [] => Err ValueError
  | _ => Ok {| ncols := 2; rows := concat blocks |}
  end.

(** [group[indices]] for an array of non-negative indices. *)
Definition index_group (g : list nat) (idx : list nat) : result (list nat) :=
  match gather g idx with
  | Some g' => Ok g'
  | None => Err IndexError
  end.

Definition solid_names : list string := ["B"; "N"; "C"; "Na"; "Cl"]%string.

(** The body of the frame loop (lines 280-314). *)
Definition slab_frame (u : universe) (topology : Cell)
           (spatial_extent_contact_layer : F)
           (pbc_indices not_pbc_indices solid_atoms liquid_atoms : list nat)
           (anchor_coordinates : vec3 F)
           (count_frames : nat) (acc : slab_acc) : M slab_acc :=
  pack topology ;;;
  com <- center_of_mass u (all_atoms u) ;;
  let translation_from_frame0 := vsub com anchor_coordinates in
  mutate (EvTranslate translation_from_frame0)
         (map (fun p => vsub p translation_from_frame0)) ;;;
  pack topology ;;;
  solid_COM <- center_of_mass u solid_atoms ;;
  liquid_positions <- group_positions liquid_atoms ;;
  let perpendicular_distance_liquid_to_solid :=
    flat_map (fun p => map (fun a => sub F (vget p a) (vget solid_COM a)) not_pbc_indices)
             liquid_positions in
  let chosen := np_where (map (fun d => leb F d spatial_extent_contact_layer)
                              perpendicular_distance_liquid_to_solid) in
  chosen_atoms <- lift (index_group liquid_atoms chosen) ;;
  chosen_positions <- group_positions chosen_atoms ;;
  let liquid_atoms_in_contact_positions := take_cols pbc_indices chosen_positions in
  c0 <- lift (py_nth pbc_indices 0) ;;
  col0 <- lift (column liquid_atoms_in_contact_positions c0) ;;
  let coord1 := liquid_contact_coord1 (slab_liquid acc) ++ col0 in
  c1 <- lift (py_nth pbc_indices 1) ;;
  col1 <- lift (column liquid_atoms_in_contact_positions c1) ;;
  let coord2 := liquid_contact_coord2 (slab_liquid acc) ++ col1 in
  solid_positions <- group_positions solid_atoms ;;
  blocks <- lift (assign_block (solid_all acc) count_frames
                               (take_cols pbc_indices solid_positions)) ;;
  ret {| slab_liquid := {| liquid_contact_coord1 := coord1;
                           liquid_contact_coord2 := coord2 |};
         solid_all := blocks |}.

Definition _compute_distribution_for_system_with_two_periodic_directions
           (u : universe) (topology : Cell) (spatial_extent_contact_layer : F)
           (pbc_indices : list nat) (start_frame end_frame frame_frequency : Z)
  : M (arr2 F * arr2 F) :=
  let not_pbc_indices := set_symdiff_012 pbc_indices in
  periodic_vector <- lift (periodic_vector_of pbc_indices) ;;
  pack topology ;;;
  let solid_atoms := select_atoms u solid_names in
  let liquid_atoms := select_atoms u ["O"%string] in
  anchor_coordinates <- center_of_mass u (all_atoms u) ;;
  n <- lift (py_int_div (end_frame - start_frame) frame_frequency) ;;
  blocks <- lift (np_zeros3 n (length solid_atoms)) ;;
  frames <- lift (frames_of u start_frame end_frame frame_frequency) ;;
  acc <- for_frames u
           (slab_frame u topology spatial_extent_contact_layer pbc_indices
                       not_pbc_indices solid_atoms liquid_atoms anchor_coordinates)
           0 frames
           {| slab_liquid := {| liquid_contact_coord1 := [];
                                liquid_contact_coord2 := [] |};
              solid_all := blocks |} ;;
  liquid_contact_2d <- lift (column_stack F (liquid_contact_coord1 (slab_liquid acc))
                                          (liquid_contact_coord2 (slab_liquid acc))) ;;
  solid_2d <- lift (np_concatenate (solid_all acc)) ;;
  ret (liquid_contact_2d, solid_2d).

(** ** Tube: one periodic direction *)

Record tube_acc : Type := {
  tube_liquid : contact_acc;
  solid_coord1 : list F;
  solid_coord2 : list F
}.

(** A required numeric argument that was left at its default [None]:
    using it in a product raises TypeError. *)
Definition required {A} (x : option A) : result A :=
  match x with
  | Some a => Ok a
  | None => Err TypeError
  end.

Definition two : F := of_nat F 2.

(** Lines 322-343: the atoms closest to atom 0 in the confined directions. *)
Definition _get_atom_ids_on_same_tube_axis (solid_atoms : list nat)
           (tube_length_in_unit_cells : option Z) (not_pbc_indices : list nat)
  : M (list nat) :=
  solid_positions <- group_positions solid_atoms ;;
  p0 <- lift (py_nth solid_positions 0) ;;
  let ids_candidate_atoms_on_axis_with_0 :=
    argsort N (map (fun p => norm F (map (fun a => sub F (vget p a) (vget p0 a))
                                         not_pbc_indices))
                   solid_positions) in
  len <- lift (required tube_length_in_unit_cells) ;;
  ret (py_slice 0 (2 * len) ids_candidate_atoms_on_axis_with_0).

(** [np.dot] of two 1-D arrays: ValueError when the lengths differ. *)
Definition np_dot (a b : list F) : result F :=
  if length a =? length b
  then Ok (sum_list F (map (fun p => mul F (fst p) (snd p)) (combine a b)))
  else Err ValueError.

(** [np.mean(a, axis=0)] of the columns [idx] of a list of positions. *)
Definition mean_axis0 (idx : list nat) (ps : list (vec3 F)) : list F :=
  map (fun a => div F (sum_list F (map (fun p => vget p a) ps)) (of_nat F (length ps))) idx.

(** Lines 142-151. *)
Definition normed_dot_product (solid_axis : list F) : result F :=
  match np_dot solid_axis [one F; zero F] with
  | Ok d => Ok (np_clip F (div F d (norm F solid_axis)) (opp F (one F)) (one F))
  | Err e => Err e
  end.

(** Lines 155-157. *)
Definition angle_anchor_first_axis (solid_axis : list F) : result F :=
  match normed_dot_product solid_axis with
  | Ok d =>
      match py_nth solid_axis 1 with
      | Ok a1 => Ok (if leb F a1 (zero F) then arccos N d else opp F (arccos N d))
      | Err e => Err e
      end
  | Err e => Err e
  end.

(** Lines 107 and 200-202 / 214-216: the arc length on the opened tube. *)
Definition tube_circumference_of (tube_radius : F) : F :=
  mul F (mul F two (pi N)) tube_radius.

Definition angular_component (tube_circumference : F) (v : vec3 F) (c1 c0 : nat) : F :=
  div F (mul F tube_circumference (add F (arctan2 N (vget v c1) (vget v c0)) (pi N)))
        (mul F two (pi N)).

(** Lines 177-183: the liquid atoms kept for the contact layer. *)
Definition tube_in_contact (spatial_extent_contact_layer : F)
           (not_pbc_indices : list nat) (v : vec3 F) : bool :=
  leb F spatial_extent_contact_layer (norm F (vtake not_pbc_indices v)).

(** The body of the frame loop (lines 122-218). *)
Definition tube_frame (u : universe) (topology : Cell)
           (spatial_extent_contact_layer : F)
           (pbc_indices not_pbc_indices : list nat) (periodic_vector : vec3 F)
           (solid_atoms liquid_atoms : list nat) (anchor_coordinates : vec3 F)
           (indices_atoms_anchor_rotation : list nat) (tube_circumference : F)
           (count_frames : nat) (acc : tube_acc) : M tube_acc :=
  com_solid <- center_of_mass u solid_atoms ;;
  let translation_from_frame0 := vsub com_solid anchor_coordinates in
  mutate (EvTranslate translation_from_frame0)
         (map (fun p => vsub p translation_from_frame0)) ;;;
  COM <- center_of_mass u (all_atoms u) ;;
  mutate EvRecenter (map (fun p => vsub p COM)) ;;;
  solid_positions <- group_positions solid_atoms ;;
  let solid_axis :=
    mean_axis0 not_pbc_indices
               (select (vzero F) solid_positions indices_atoms_anchor_rotation) in
  angle <- lift (angle_anchor_first_axis solid_axis) ;;
  let rotation := rotation_matrix periodic_vector angle in
  mutate EvRotate (map (mat_vec rotation)) ;;;
  mutate EvRestore (map (fun p => vadd p COM)) ;;;
  pack topology ;;;
  solid_COM <- center_of_mass u solid_atoms ;;
  liquid_positions <- group_positions liquid_atoms ;;
  let vector_liquid_to_central_axis := map (fun p => vsub p solid_COM) liquid_positions in
  let liquid_atoms_in_contact_positions :=
    filter (tube_in_contact spatial_extent_contact_layer not_pbc_indices)
           vector_liquid_to_central_axis in
  let coord1 :=
    liquid_contact_coord1 (tube_liquid acc)
    ++ flat_map (fun v => map (fun a => add F (vget v a) (vget solid_COM a)) pbc_indices)
                liquid_atoms_in_contact_positions in
  n1 <- lift (py_nth not_pbc_indices 1) ;;
  n0 <- lift (py_nth not_pbc_indices 0) ;;
  let coord2 :=
    liquid_contact_coord2 (tube_liquid acc)
    ++ map (fun v => angular_component tube_circumference v n1 n0)
           liquid_atoms_in_contact_positions in
  solid_positions' <- group_positions solid_atoms ;;
  let vector_solid_to_central_axis := map (fun p => vsub p solid_COM) solid_positions' in
  let s1 := solid_coord1 acc ++ flat_map (vtake pbc_indices) solid_positions' in
  m1 <- lift (py_nth not_pbc_indices 1) ;;
  m0 <- lift (py_nth not_pbc_indices 0) ;;
  let s2 :=
    solid_coord2 acc
    ++ map (fun v => angular_component tube_circumference v m1 m0)
           vector_solid_to_central_axis in
  ret {| tube_liquid := {| liquid_contact_coord1 := coord1;
                           liquid_contact_coord2 := coord2 |};
         solid_coord1 := s1;
         solid_coord2 := s2 |}.

Definition tube_acc0 : tube_acc :=
  {| tube_liquid := {| liquid_contact_coord1 := []; liquid_contact_coord2 := [] |};
     solid_coord1 := [];
     solid_coord2 := [] |}.

Definition _compute_distribution_for_system_with_one_periodic_direction
           (u : universe) (topology : Cell) (spatial_extent_contact_layer : F)
           (tube_radius : option F) (tube_length_in_unit_cells : option Z)
           (pbc_indices : list nat) (start_frame end_frame frame_frequency : Z)
  : M (arr2 F * arr2 F) :=
  let not_pbc_indices := set_symdiff_012 pbc_indices in
  periodic_vector <- lift (periodic_vector_of pbc_indices) ;;
  let solid_atoms := select_atoms u solid_names in
  let liquid_atoms := select_atoms u ["O"; "H"]%string in
  anchor_coordinates <- center_of_mass u solid_atoms ;;
  indices_atoms_anchor_rotation <-
    _get_atom_ids_on_same_tube_axis solid_atoms tube_length_in_unit_cells
                                    not_pbc_indices ;;
  radius <- lift (required tube_radius) ;;
  let tube_circumference := tube_circumference_of radius in
  frames <- lift (frames_of u start_frame end_frame frame_frequency) ;;
  acc <- for_frames u
           (tube_frame u topology spatial_extent_contact_layer pbc_indices
                       not_pbc_indices periodic_vector solid_atoms liquid_atoms
                       anchor_coordinates indices_atoms_anchor_rotation
                       tube_circumference)
           0 frames tube_acc0 ;;
  liquid_contact_2d <- lift (column_stack F (liquid_contact_coord1 (tube_liquid acc))
                                          (liquid_contact_coord2 (tube_liquid acc))) ;;
  solid_2d <- lift (column_stack F (solid_coord1 acc) (solid_coord2 acc)) ;;
  ret (liquid_contact_2d, solid_2d).

(** ** The public entry point (lines 9-58) *)

Definition compute_spatial_distribution_of_atoms_on_interface
           (position_universe : universe) (topology : Cell)
           (spatial_extent_contact_layer : F) (pbc_indices : list nat)
           (start_frame end_frame frame_frequency : Z)
           (tube_radius : option F) (tube_length_in_unit_cells : option Z)
  : M (arr2 F * arr2 F) :=
  if length pbc_indices =? 1
  then _compute_distribution_for_system_with_one_periodic_direction
         position_universe topology spatial_extent_contact_layer tube_radius
         tube_length_in_unit_cells pbc_indices start_frame end_frame frame_frequency
  else _compute_distribution_for_system_with_two_periodic_directions
         position_universe topology spatial_extent_contact_layer pbc_indices
         start_frame end_frame frame_frequency.

(** The state of a freshly built universe: MDAnalysis loads frame 0, and
    nothing has been mutated yet. *)
Definition initial_world (u : universe) : world :=
  {| positions := nth 0 (trajectory u) []; trace := [] |}.

End Pipeline.

(** ** IEEE binary64 scalars *)

Fixpoint f64_of_nat (n : nat) : float :=
  match n with
  | O => 0%float
  | S k => PrimFloat.add (f64_of_nat k) 1%float
  end.

Definition f64 : Scalar :=
  {| num := float;
     zero := 0%float;
     one := 1%float;
     add := PrimFloat.add;
     sub := PrimFloat.sub;
     mul := PrimFloat.mul;
     div := PrimFloat.div;
     opp := PrimFloat.opp;
     sqrt := PrimFloat.sqrt;
     leb := PrimFloat.leb;
     of_nat := f64_of_nat |}.

(** The cell of the flat examples below: a cube of edge 100.  Packing
    brings a coordinate back into [0, 100); a coordinate that has left the
    cell by less than one edge needs one shift, and the examples never go
    further. *)
Definition wrap_large_cell (x : float) : float :=
  if PrimFloat.ltb x 0%float then PrimFloat.add x 100%float
  else if PrimFloat.leb 100%float x then PrimFloat.sub x 100%float
  else x.

Definition pack_large_cell (_ : unit) (pos : list (vec3 f64)) : list (vec3 f64) :=
  map (fun p : vec3 f64 =>
         (wrap_large_cell (vget p 0), wrap_large_cell (vget p 1),
          wrap_large_cell (vget p 2))) pos.

(** A flat system periodic in x and y, all of it well inside the cell:
    one carbon atom at height z = 10 and two oxygen atoms, 0.5 above and
    5.0 below the carbon along z.  In the second frame the first oxygen
    has moved along x; the carbon never moves. *)
Definition slab_frame0 : list (vec3 f64) :=
  [ (4, 5, 10); (6, 7, 10.5); (8, 9, 5) ]%float.

Definition slab_frame1 : list (vec3 f64) :=
  [ (4, 5, 10); (7, 7, 10.5); (8, 9, 5) ]%float.

Definition slab_universe : universe f64 :=
  @Build_universe f64 ["C"; "O"; "O"]%string
                  [12; 16; 16]%float
                  [slab_frame0; slab_frame1; slab_frame0].

(** numpy's [arccos] and [arctan2] are libm functions with no counterpart
    among the primitive float operations.  The flat pipeline never calls
    them (nor [argsort], nor the rotation matrix); for the runs of the flat
    pipeline below they are fixed to functions returning NaN. *)
Definition f64_nan : float := PrimFloat.div 0%float 0%float.

Definition f64_numpy : Numpy f64 :=
  @Build_Numpy f64 0x1.921fb54442d18p+1%float
               (fun _ => f64_nan) (fun _ _ => f64_nan)
               (fun l => seq 0 (length l)).

Definition f64_rotation_matrix (_ : vec3 f64) (_ : float) : mat3 f64 :=
  let v : vec3 f64 := (f64_nan, f64_nan, f64_nan) in (v, v, v).

(** The flat pipeline through the public entry point, with cutoff 1.0 and
    the tube parameters left at their default. *)
Definition run_slab (pbc_indices : list nat) (start_frame end_frame frame_frequency : Z) :=
  compute_spatial_distribution_of_atoms_on_interface
    f64_numpy pack_large_cell f64_rotation_matrix
    slab_universe tt 1%float pbc_indices start_frame end_frame frame_frequency
    None None (initial_world slab_universe).

(** ** Exact real scalars *)

Definition Rleb (a b : R) : bool := if Rle_dec a b then true else false.

Definition Rs : Scalar :=
  Build_Scalar 0%R 1%R Rplus Rminus Rmult Rdiv Ropp R_sqrt.sqrt Rleb INR.

(** The two-argument arctangent, with values in (-PI, PI]. *)
Definition Ratan2 (y x : R) : R :=
  if Rlt_dec 0 x then atan (y / x)
  else if Rlt_dec x 0 then
    if Rle_dec 0 y then (atan (y / x) + PI)%R else (atan (y / x) - PI)%R
  else if Rlt_dec 0 y then (PI / 2)%R
  else if Rlt_dec y 0 then (- (PI / 2))%R
  else 0%R.

(** A stable argsort, by insertion. *)
Fixpoint insert_by (key : nat -> R) (i : nat) (l : list nat) : list nat :=
  match l with
  | [] => [i]
  | j :: r => if Rleb (key j) (key i) then j :: insert_by key i r else i :: l
  end.

Definition Rargsort (l : list R) : list nat :=
  fold_left (fun acc i => insert_by (fun k => nth k l 0%R) i acc) (seq 0 (length l)) [].

Definition Rnumpy : Numpy Rs :=
  @Build_Numpy Rs PI acos Ratan2 Rargsort.

(** Packing into an orthorhombic cell with edge lengths [cell]. *)
Definition Rwrap (len x : R) : R := (x - IZR (Int_part (x / len)) * len)%R.

Definition Rpack_into_box (cell : vec3 Rs) (pos : list (vec3 Rs)) : list (vec3 Rs) :=
  map (fun p : vec3 Rs =>
         (Rwrap (vget cell 0) (vget p 0),
          Rwrap (vget cell 1) (vget p 1),
          Rwrap (vget cell 2) (vget p 2))) pos.

(** Modelled from the spec: [utils.rotation_matrix] is not among the
    analysed sources; section 4.1 describes it as the standard axis-angle
    rotation (Rodrigues' formula). *)
Definition Rrotation_matrix (axis : vec3 Rs) (angle : R) : mat3 Rs :=
  let '(x, y, z) := axis in
  let c := cos angle in
  let s := sin angle in
  let t := (1 - c)%R in
  ((t * x * x + c, t * x * y - s * z, t * x * z + s * y),
   (t * x * y + s * z, t * y * y + c, t * y * z - s * x),
   (t * x * z - s * y, t * y * z + s * x, t * z * z + c))%R.

(** A tube along z: a ring of four carbon atoms of radius 1 around the
    axis, one oxygen outside the ring and one hydrogen close to the axis;
    two identical frames. *)
Definition tube_frame0 : list (vec3 Rs) :=
  [ (1, 0, 0); (0, 1, 0); (-1, 0, 0); (0, -1, 0); (3, 0, 1); (1/5, 0, 2) ]%R.

Definition tube_universe : universe Rs :=
  @Build_universe Rs ["C"; "C"; "C"; "C"; "O"; "H"]%string
                  [12; 12; 12; 12; 16; 1]%R
                  [tube_frame0; tube_frame0].

Definition tube_cell : vec3 Rs := (20, 20, 10)%R.

Definition run_entry_tube (pbc_indices : list nat) (start_frame end_frame frame_frequency : Z)
           (tube_radius : option R) (tube_length_in_unit_cells : option Z) :=
  compute_spatial_distribution_of_atoms_on_interface
    Rnumpy Rpack_into_box Rrotation_matrix
    tube_universe tube_cell 1%R pbc_indices start_frame end_frame frame_frequency
    tube_radius tube_length_in_unit_cells (initial_world tube_universe).

(** ** Reading a trace *)

Inductive mutation : Type :=
| KLoadFrame | KPack | KTranslate | KRecenter | KRotate | KRestore.

Definition kind {F} (e : event F) : mutation :=
  match e with
  | EvLoadFrame _ _ => KLoadFrame
  | EvPack _ => KPack
  | EvTranslate _ => KTranslate
  | EvRecenter _ => KRecenter
  | EvRotate _ => KRotate
  | EvRestore _ => KRestore
  end.

(** [wrapped_at_translations wrapped ks]: every translation in [ks] acts
    on positions that were packed into the cell since they were last
    loaded or moved; [wrapped] is the state of the buffer at the start. *)
Fixpoint wrapped_at_translations (wrapped : bool) (ks : list mutation) : bool :=
  match ks with
  | [] => true
  | KPack :: r => wrapped_at_translations true r
  | KTranslate :: r => wrapped && wrapped_at_translations false r
  | _ :: r => wrapped_at_translations false r
  end.

(** The translations applied, in order. *)
Fixpoint translations {F} (tr : list (event F)) : list (vec3 F) :=
  match tr with
  | [] => []
  | EvTranslate d :: r => d :: translations r
  | _ :: r => translations r
  end.

(** The kinds of mutation of one frame of each loop, frame load included. *)
Definition tube_frame_kinds : list mutation :=
  [KLoadFrame; KTranslate; KRecenter; KRotate; KRestore; KPack].

Definition slab_frame_kinds : list mutation :=
  [KLoadFrame; KPack; KTranslate; KPack].


(** What [np.clip x lo hi] can be said to return as [q]: a value between
    the bounds, or [x] itself when [x] compares with neither [lo] or with
    neither [hi] (a NaN). *)
Definition clipped_or_unordered (F : Scalar) (x lo hi q : F) : Prop :=
  (leb F lo q = true /\ leb F q hi = true)
  \/ (q = x
      /\ ((leb F lo x = false /\ leb F x lo = false)
          \/ (leb F x hi = false /\ leb F hi x = false))).

(** Whether the ratio handed to [arccos] is a NaN. *)
Definition ratio_is_nan (r : result float) : bool :=
  match r with
  | Ok q => PrimFloat.is_nan q
  | Err _ => false
  end.

(** ** What one frame contributes *)

Section FrameContributions.

Variable F : Scalar.
Variable N : Numpy F.

(** The four lists after a frame of the tube loop, from the positions
    [pos] left in the buffer by the normalisation of that frame. *)
Definition tube_frame_appends (u : universe F) (cutoff : F)
           (pbc_indices not_pbc_indices solid_atoms liquid_atoms : list nat)
           (tube_circumference : F) (n1 n0 : nat)
           (acc : tube_acc F) (pos : list (vec3 F)) : tube_acc F :=
  let solid_COM := com_of u solid_atoms pos in
  let contact :=
    filter (tube_in_contact cutoff not_pbc_indices)
           (map (fun p => vsub p solid_COM) (select (vzero F) pos liquid_atoms)) in
  let solid_positions := select (vzero F) pos solid_atoms in
  {| tube_liquid :=
       {| liquid_contact_coord1 :=
            liquid_contact_coord1 (tube_liquid acc)
            ++ flat_map (fun v => map (fun a => add F (vget v a) (vget solid_COM a))
                                      pbc_indices) contact;
          liquid_contact_coord2 :=
            liquid_contact_coord2 (tube_liquid acc)
            ++ map (fun v => angular_component N tube_circumference v n1 n0) contact |};
     solid_coord1 := solid_coord1 acc ++ flat_map (vtake pbc_indices) solid_positions;
     solid_coord2 :=
       solid_coord2 acc
       ++ map (fun v => angular_component N tube_circumference v n1 n0)
              (map (fun p => vsub p solid_COM) solid_positions) |}.

(** The mutations of one frame of the tube loop, frame load included. *)
Definition tube_events (u : universe F) (solid_atoms : list nat)
           (anchor_coordinates : vec3 F) (i : nat) : list (event F) :=
  [ EvLoadFrame F i;
    EvTranslate (vsub (com_of u solid_atoms (nth i (trajectory u) [])) anchor_coordinates);
    EvRecenter F; EvRotate F; EvRestore F; EvPack F ].

(** The mutations of one frame of the flat loop, frame load included. *)
Definition slab_events (Cell : Type)
           (pack_into_box : Cell -> list (vec3 F) -> list (vec3 F))
           (u : universe F) (topology : Cell)
           (anchor_coordinates : vec3 F) (i : nat) : list (event F) :=
  [ EvLoadFrame F i;
    EvPack F;
    EvTranslate (vsub (com_of u (all_atoms u)
                              (pack_into_box topology (nth i (trajectory u) [])))
                      anchor_coordinates);
    EvPack F ].



(** From [acc] to [acc'] the two liquid lists grew by the same amount and
    each solid list grew by [frames * solids] entries. *)
Definition equal_growth (acc acc' : tube_acc F) (frames solids : nat) : Prop :=
  length (liquid_contact_coord1 (tube_liquid acc'))
  + length (liquid_contact_coord2 (tube_liquid acc))
  = length (liquid_contact_coord2 (tube_liquid acc'))
    + length (liquid_contact_coord1 (tube_liquid acc))
  /\ length (solid_coord1 acc') = length (solid_coord1 acc) + frames * solids
  /\ length (solid_coord2 acc') = length (solid_coord2 acc) + frames * solids.

End FrameContributions.

(** * Properties *)

Section PipelineFacts.

Variable F : Scalar.
Variable N : Numpy F.
Variable Cell : Type.
Variable pack_into_box : Cell -> list (vec3 F) -> list (vec3 F).
Variable rotation_matrix : vec3 F -> F -> mat3 F.

(** ** Stepping through the monad *)

Lemma bind_ok A B (m : M F A) (k : A -> M F B) w a w' :
  m w = (Ok a, w') -> bind m k w = k a w'.
Proof. intros H. unfold bind. rewrite H. reflexivity. Qed.

Lemma bind_err A B (m : M F A) (k : A -> M F B) w e w' :
  m w = (Err e, w') -> bind m k w = (Err e, w').
Proof. intros H. unfold bind. rewrite H. reflexivity. Qed.

Lemma center_of_mass_run u g (w : world F) :
  center_of_mass u g w = (Ok (com_of u g (positions w)), w).
Proof. reflexivity. Qed.

Lemma group_positions_run g (w : world F) :
  group_positions g w = (Ok (select (vzero F) (positions w) g), w).
Proof. reflexivity. Qed.

Lemma mutate_run ev f (w : world F) :
  mutate ev f w = (Ok tt, {| positions := f (positions w); trace := trace w ++ [ev] |}).
Proof. reflexivity. Qed.

Lemma pack_run topology (w : world F) :
  pack pack_into_box topology w
  = (Ok tt, {| positions := pack_into_box topology (positions w);
               trace := trace w ++ [EvPack F] |}).
Proof. reflexivity. Qed.

Lemma lift_ok A (a : A) (w : world F) : lift (Ok a) w = (Ok a, w).
Proof. reflexivity. Qed.

Lemma lift_err A (e : pyerror) (w : world F) : lift (@Err A e) w = (Err e, w).
Proof. reflexivity. Qed.

Lemma angle_of_two (a0 a1 : F) :
  exists angle, angle_anchor_first_axis N [a0; a1] = Ok angle.
Proof.
  unfold angle_anchor_first_axis, normed_dot_product, np_dot. simpl.
  eexists. reflexivity.
Qed.

Ltac step :=
  first
    [ erewrite bind_ok by
        first [ apply center_of_mass_run | apply group_positions_run
              | apply mutate_run | apply pack_run | apply lift_ok ]
    | erewrite bind_ok by eassumption ];
  cbv beta.

(** A frame of the tube loop never fails when there are two confined
    axes; it performs five mutations, the wrap last, and appends what
    [tube_frame_appends] computes from the positions it leaves behind. *)
Lemma tube_frame_spec u topology cutoff pbc n0 n1 pv solid liquid anchor ref circ count acc w :
  exists w',
    tube_frame N pack_into_box rotation_matrix
               u topology cutoff pbc [n0; n1] pv solid liquid anchor ref circ count acc w
    = (Ok (tube_frame_appends N u cutoff pbc [n0; n1] solid liquid circ n1 n0 acc (positions w')), w')
    /\ trace w' = trace w ++ [ EvTranslate (vsub (com_of u solid (positions w)) anchor);
                               EvRecenter F; EvRotate F; EvRestore F; EvPack F ].
Proof.
  unfold tube_frame.
  step. step. step. step. step.
  match goal with
  | |- context [angle_anchor_first_axis N ?ax] =>
      destruct (angle_of_two (nth 0 ax (zero F)) (nth 1 ax (zero F))) as [angle Hangle];
      change [nth 0 ax (zero F); nth 1 ax (zero F)] with ax in Hangle
  end.
  rewrite Hangle. step. step. step. step. step. step.
  change (py_nth [n0; n1] 1) with (Ok n1).
  change (py_nth [n0; n1] 0) with (Ok n0).
  step. step. step. step. step.
  eexists. split.
  - unfold ret. reflexivity.
  - cbn [trace]. repeat rewrite <- app_assoc. reflexivity.
Qed.

(** ** The tube loop *)

Lemma flat_map_singleton_length A B (f : A -> nat -> B) (a : nat) (l : list A) :
  length (flat_map (fun v => map (f v) [a]) l) = length l.
Proof. induction l; simpl; auto. Qed.

Lemma flat_map_vtake_singleton_length (a : nat) (l : list (vec3 F)) :
  length (flat_map (vtake [a]) l) = length l.
Proof. induction l; simpl; auto. Qed.

Lemma tube_frame_appends_growth u cutoff a not_pbc solid liquid circ n1 n0 acc pos :
  equal_growth acc
    (tube_frame_appends N u cutoff [a] not_pbc solid liquid circ n1 n0 acc pos)
    1 (length solid).
Proof.
  unfold equal_growth, tube_frame_appends. cbn [tube_liquid liquid_contact_coord1
    liquid_contact_coord2 solid_coord1 solid_coord2].
  repeat rewrite length_app. repeat rewrite length_map.
  rewrite flat_map_singleton_length, flat_map_vtake_singleton_length.
  unfold select. repeat rewrite length_map. lia.
Qed.

Lemma tube_loop_spec u topology cutoff a n0 n1 pv solid liquid anchor ref circ :
  forall frames count acc w,
  exists acc' w',
    for_frames u (tube_frame N pack_into_box rotation_matrix u topology cutoff [a]
                             [n0; n1] pv solid liquid anchor ref circ)
               count frames acc w = (Ok acc', w')
    /\ trace w' = trace w ++ flat_map (tube_events u solid anchor) frames
    /\ equal_growth acc acc' (length frames) (length solid).
Proof.
  induction frames as [|i rest IH]; intros count acc w.
  - exists acc, w. simpl. rewrite app_nil_r. unfold equal_growth.
    repeat split; try reflexivity; lia.
  - cbn [for_frames]. unfold load_frame.
    erewrite bind_ok by apply mutate_run. cbv beta.
    match goal with
    | |- context [bind _ _ ?w0] =>
        destruct (tube_frame_spec u topology cutoff [a] n0 n1 pv solid liquid anchor
                                  ref circ count acc w0) as (w1 & Hrun & Htr)
    end.
    erewrite bind_ok by exact Hrun. cbv beta.
    match goal with
    | |- context [for_frames _ _ ?c rest ?ac ?w0] =>
        destruct (IH c ac w0) as (acc' & w' & Hloop & Htr' & Hg)
    end.
    exists acc', w'. split; [exact Hloop|]. split.
    + rewrite Htr', Htr. cbn [trace positions flat_map tube_events].
      repeat rewrite <- app_assoc. reflexivity.
    + pose proof (tube_frame_appends_growth u cutoff a [n0; n1] solid liquid circ
                    n1 n0 acc (positions w1)) as Hf.
      unfold equal_growth in *. cbn [length]. lia.
Qed.

(** ** The tube pipeline as a whole *)

Lemma frames_of_ok (u : universe F) s e f :
  f <> 0%Z -> exists frames, frames_of u s e f = Ok frames.
Proof.
  intros Hf. unfold frames_of, py_stride.
  destruct (f =? 0)%Z eqn:E; [apply Z.eqb_eq in E; contradiction|].
  destruct (0 <? f)%Z; eexists; reflexivity.
Qed.

Lemma confined_axes_of_one a :
  a < 3 ->
  exists n0 n1 pv, set_symdiff_012 [a] = [n0; n1]
                   /\ periodic_vector_of F [a] = Ok pv.
Proof.
  intros Ha.
  destruct a as [|[|[|a]]]; [| | |lia];
    do 3 eexists; split; reflexivity.
Qed.

Lemma column_stack_ok (a b : list F) :
  length a = length b ->
  exists m, column_stack F a b = Ok m
            /\ (ncols m = 2 /\ Forall (fun r => length r = 2) (rows m))
            /\ length (rows m) = length a.
Proof.
  intros H. unfold column_stack. rewrite H, Nat.eqb_refl.
  eexists. split; [reflexivity|]. split; [split; [reflexivity|]|].
  - cbn [rows]. apply Forall_forall. intros r Hr.
    apply in_map_iff in Hr. destruct Hr as (p & <- & _). reflexivity.
  - cbn [rows]. rewrite length_map, length_combine. lia.
Qed.

(** With one valid periodic axis, at least one solid atom, both tube
    parameters and a non-zero stride, the tube pipeline returns two
    two-column arrays, after the mutations listed by [tube_events]. *)
Lemma tube_run_spec u topology cutoff radius len a s e f w :
  a < 3 ->
  select_atoms u solid_names <> [] ->
  f <> 0%Z ->
  exists frames liq sol w',
    frames_of u s e f = Ok frames
    /\ compute_spatial_distribution_of_atoms_on_interface
         N pack_into_box rotation_matrix u topology cutoff [a] s e f
         (Some radius) (Some len) w = (Ok (liq, sol), w')
    /\ trace w' = trace w
                  ++ flat_map (tube_events u (select_atoms u solid_names)
                                           (com_of u (select_atoms u solid_names)
                                                   (positions w))) frames
    /\ (ncols liq = 2 /\ Forall (fun r => length r = 2) (rows liq))
    /\ (ncols sol = 2 /\ Forall (fun r => length r = 2) (rows sol))
    /\ length (rows sol) = length frames * length (select_atoms u solid_names).
Proof.
  intros Ha Hsolid Hf.
  destruct (frames_of_ok u s e Hf) as [frames Hframes].
  destruct (confined_axes_of_one Ha) as (n0 & n1 & pv & Hnot & Hpv).
  unfold compute_spatial_distribution_of_atoms_on_interface. cbn [length Nat.eqb].
  remember (select_atoms u solid_names) as solid eqn:Es.
  destruct solid as [|s0 srest]; [contradiction|].
  unfold _compute_distribution_for_system_with_one_periodic_direction.
  rewrite Hnot, Hpv, Hframes, <- Es.
  erewrite bind_ok by apply lift_ok. cbv beta.
  erewrite bind_ok by apply center_of_mass_run. cbv beta.
  unfold _get_atom_ids_on_same_tube_axis.
  erewrite bind_ok.
  2:{ erewrite bind_ok by apply group_positions_run. cbv beta.
      cbn [select map py_nth nth_error].
      erewrite bind_ok by apply lift_ok. cbv beta.
      cbn [required].
      erewrite bind_ok by apply lift_ok. cbv beta.
      unfold ret. reflexivity. }
  cbv beta. cbn [required].
  erewrite bind_ok by apply lift_ok. cbv beta.
  erewrite bind_ok by apply lift_ok. cbv beta.
  match goal with
  | |- context [for_frames u (tube_frame _ _ _ _ _ _ _ _ _ _ _ _ ?ref _)] =>
      destruct (tube_loop_spec u topology cutoff a n0 n1 pv (s0 :: srest)
                  (select_atoms u ["O"; "H"]%string)
                  (com_of u (s0 :: srest) (positions w))
                  ref (tube_circumference_of N radius) frames 0 (tube_acc0 F) w)
        as (acc' & w' & Hloop & Htr & Hg1 & Hg2 & Hg3)
  end.
  erewrite bind_ok by exact Hloop. cbv beta.
  cbn [tube_acc0 tube_liquid liquid_contact_coord1 liquid_contact_coord2
       solid_coord1 solid_coord2 length] in Hg1, Hg2, Hg3.
  destruct (@column_stack_ok (liquid_contact_coord1 (tube_liquid acc'))
                             (liquid_contact_coord2 (tube_liquid acc')))
    as (liq & Hliq & Hliq2 & _); [lia|].
  destruct (@column_stack_ok (solid_coord1 acc') (solid_coord2 acc'))
    as (sol & Hsol & Hsol2 & Hsolrows); [lia|].
  rewrite Hliq, Hsol.
  erewrite bind_ok by apply lift_ok. cbv beta.
  erewrite bind_ok by apply lift_ok. cbv beta.
  exists frames, liq, sol, w'.
  split; [reflexivity|]. split; [reflexivity|]. split; [exact Htr|].
  split; [exact Hliq2|]. split; [exact Hsol2|].
  cbn [length] in *. lia.
Qed.

(** ** The flat pipeline: what it does to the position buffer *)

Lemma bind_lift A B (r : result A) (k : A -> M F B) w :
  bind (lift r) k w = match r with Ok a => k a w | Err e => (Err e, w) end.
Proof. destruct r; reflexivity. Qed.

(** Whatever a frame of the flat loop returns, it has wrapped, translated
    by the displacement of the centre of mass of all atoms, and wrapped
    again. *)
Lemma slab_frame_trace u topology cutoff pbc not_pbc solid liquid anchor count acc w :
  trace (snd (slab_frame pack_into_box u topology cutoff pbc not_pbc solid liquid
                         anchor count acc w))
  = trace w
    ++ [ EvPack F;
         EvTranslate (vsub (com_of u (all_atoms u)
                                   (pack_into_box topology (positions w))) anchor);
         EvPack F ].
Proof.
  unfold slab_frame.
  do 6 step.
  repeat first
    [ rewrite bind_lift;
      match goal with
      | |- context [match ?r with Ok _ => _ | Err _ => _ end] => destruct r
      end
    | step ];
    cbn [snd trace positions ret]; repeat rewrite <- app_assoc; reflexivity.
Qed.

Lemma slab_loop_trace u topology cutoff pbc not_pbc solid liquid anchor :
  forall frames count acc w acc' w',
    for_frames u (slab_frame pack_into_box u topology cutoff pbc not_pbc solid liquid
                             anchor) count frames acc w = (Ok acc', w') ->
    trace w' = trace w ++ flat_map (slab_events pack_into_box u topology anchor) frames.
Proof.
  induction frames as [|i rest IH]; intros count acc w acc' w' Hrun.
  - cbn in Hrun. injection Hrun as _ <-. cbn. now rewrite app_nil_r.
  - cbn [for_frames] in Hrun. unfold load_frame in Hrun.
    erewrite bind_ok in Hrun by apply mutate_run. cbv beta in Hrun.
    match type of Hrun with
    | bind (slab_frame _ _ _ _ _ _ _ _ _ ?c ?a) _ ?w0 = _ =>
        pose proof (slab_frame_trace u topology cutoff pbc not_pbc solid liquid
                                     anchor c a w0) as Htr;
        destruct (slab_frame pack_into_box u topology cutoff pbc not_pbc solid
                             liquid anchor c a w0) as [[acc1|err] w1] eqn:Hframe
    end.
    + erewrite bind_ok in Hrun by exact Hframe. cbv beta in Hrun.
      apply IH in Hrun. rewrite Hrun. cbn [snd] in Htr. rewrite Htr.
      cbn [trace positions flat_map slab_events].
      repeat rewrite <- app_assoc. reflexivity.
    + erewrite bind_err in Hrun by exact Hframe. discriminate.
Qed.

(** A run of the flat pipeline that returns has wrapped once before the
    loop and then, frame after frame, loaded, wrapped, translated and
    wrapped. *)
Lemma slab_run_trace u topology cutoff pbc s e f w out w' :
  _compute_distribution_for_system_with_two_periodic_directions
    pack_into_box u topology cutoff pbc s e f w = (Ok out, w') ->
  exists frames,
    frames_of u s e f = Ok frames
    /\ trace w' = trace w
                  ++ EvPack F
                  :: flat_map (slab_events pack_into_box u topology
                                 (com_of u (all_atoms u)
                                         (pack_into_box topology (positions w))))
                              frames.
Proof.
  unfold _compute_distribution_for_system_with_two_periodic_directions.
  rewrite bind_lift. destruct (periodic_vector_of F pbc); [|discriminate].
  do 2 step.
  rewrite bind_lift. destruct (py_int_div (e - s) f); [|discriminate].
  rewrite bind_lift. destruct (np_zeros3 F _ _) as [blocks|]; [|discriminate].
  rewrite bind_lift. destruct (frames_of u s e f) as [frames|]; [|discriminate].
  match goal with
  | |- bind (for_frames u ?body 0 frames ?acc0) _ ?w0 = _ -> _ =>
      destruct (for_frames u body 0 frames acc0 w0) as [[acc1|err] w1] eqn:Hloop
  end.
  - erewrite bind_ok by exact Hloop. cbv beta.
    apply slab_loop_trace in Hloop.
    rewrite bind_lift. destruct (column_stack F _ _); [|discriminate].
    rewrite bind_lift. destruct (np_concatenate _); [|discriminate].
    unfold ret. intros H. injection H as _ <-.
    exists frames. split; [reflexivity|].
    rewrite Hloop. cbn [trace positions]. rewrite <- app_assoc. reflexivity.
  - erewrite bind_err by exact Hloop. discriminate.
Qed.

(** ** The flat pipeline: what a frame computes *)




(** With a periodic direction 2 in a list of two, no frame of the flat
    loop completes: the second indexing of the liquid positions has no
    such column. *)
Lemma slab_frame_fails u topology cutoff a b not_pbc solid liquid anchor count acc w :
  2 <= a \/ 2 <= b ->
  is_ok (fst (slab_frame pack_into_box u topology cutoff [a; b] not_pbc solid liquid
                         anchor count acc w)) = false.
Proof.
  intros Hab. unfold slab_frame.
  do 6 step.
  rewrite bind_lift. destruct (index_group _ _); [|reflexivity].
  step.
  change (py_nth [a; b] 0) with (Ok a).
  change (py_nth [a; b] 1) with (Ok b).
  step. unfold column. cbn [ncols take_cols length].
  destruct (a <? 2) eqn:Ea.
  - step. step.
    destruct (b <? 2) eqn:Eb; [|reflexivity].
    apply Nat.ltb_lt in Ea, Eb. lia.
  - reflexivity.
Qed.

(** ** The flat pipeline: the preallocated solid array *)

Lemma set_nth_length A (i : nat) (x : A) (l : list A) :
  length (set_nth i x l) = length l.
Proof.
  revert i. induction l as [|y r IH]; intros [|i]; cbn; auto.
Qed.

Lemma set_nth_Forall A (P : A -> Prop) (i : nat) (x : A) (l : list A) :
  P x -> Forall P l -> Forall P (set_nth i x l).
Proof.
  intros Hx. revert i. induction l as [|y r IH]; intros [|i] Hl; cbn; auto;
    inversion Hl; subst; constructor; auto.
Qed.

Lemma assign_block_ok (blocks blocks' : list (list (list F))) i x (S : nat) :
  assign_block blocks i x = Ok blocks' ->
  length (rows x) = S ->
  i < length blocks
  /\ length blocks' = length blocks
  /\ (Forall (fun b => length b = S) blocks -> Forall (fun b => length b = S) blocks').
Proof.
  unfold assign_block. intros H Hx.
  destruct (i <? length blocks) eqn:Ei; [|discriminate].
  apply Nat.ltb_lt in Ei. split; [exact Ei|].
  destruct (ncols x =? 2).
  - injection H as <-. split; [apply set_nth_length|].
    intros Hall. now apply set_nth_Forall.
  - destruct (ncols x =? 1); [|discriminate].
    injection H as <-. split; [apply set_nth_length|].
    intros Hall. apply set_nth_Forall; [|assumption]. now rewrite length_map.
Qed.

Lemma slab_frame_blocks u topology cutoff pbc not_pbc solid liquid anchor count acc w
      acc' w' :
  slab_frame pack_into_box u topology cutoff pbc not_pbc solid liquid anchor
             count acc w = (Ok acc', w') ->
  count < length (solid_all acc)
  /\ length (solid_all acc') = length (solid_all acc)
  /\ (Forall (fun b => length b = length solid) (solid_all acc) ->
      Forall (fun b => length b = length solid) (solid_all acc')).
Proof.
  unfold slab_frame. do 6 step.
  rewrite bind_lift. destruct (index_group _ _); [|discriminate]. step.
  rewrite bind_lift. destruct (py_nth pbc 0); [|discriminate].
  rewrite bind_lift. destruct (column _ _); [|discriminate].
  rewrite bind_lift. destruct (py_nth pbc 1); [|discriminate].
  rewrite bind_lift. destruct (column _ _); [|discriminate]. step.
  rewrite bind_lift.
  destruct (assign_block _ _ _) as [blocks'|] eqn:Hassign; [|discriminate].
  unfold ret. intros H. injection H as <- _. cbn [solid_all].
  apply assign_block_ok with (S := length solid) in Hassign; [exact Hassign|].
  cbn [rows take_cols]. unfold select. now repeat rewrite length_map.
Qed.

Lemma slab_loop_blocks u topology cutoff pbc not_pbc solid liquid anchor :
  forall frames count acc w acc' w',
    for_frames u (slab_frame pack_into_box u topology cutoff pbc not_pbc solid liquid
                             anchor) count frames acc w = (Ok acc', w') ->
    (frames = [] \/ count + length frames <= length (solid_all acc))
    /\ length (solid_all acc') = length (solid_all acc)
    /\ (Forall (fun b => length b = length solid) (solid_all acc) ->
        Forall (fun b => length b = length solid) (solid_all acc')).
Proof.
  induction frames as [|i rest IH]; intros count acc w acc' w' Hrun.
  - cbn in Hrun. injection Hrun as <- _. auto.
  - cbn [for_frames] in Hrun. unfold load_frame in Hrun.
    erewrite bind_ok in Hrun by apply mutate_run. cbv beta in Hrun.
    match type of Hrun with
    | bind (slab_frame _ _ _ _ _ _ _ _ _ ?c ?a) _ ?w0 = _ =>
        destruct (slab_frame pack_into_box u topology cutoff pbc not_pbc solid
                             liquid anchor c a w0) as [[acc1|err] w1] eqn:Hframe
    end.
    + erewrite bind_ok in Hrun by exact Hframe. cbv beta in Hrun.
      apply slab_frame_blocks in Hframe. destruct Hframe as (Hc & Hl & Hall).
      apply IH in Hrun. destruct Hrun as (Hn & Hl' & Hall').
      split; [|split].
      * right. cbn [length]. destruct Hn as [->|Hn]; cbn [length]; lia.
      * lia.
      * auto.
    + erewrite bind_err in Hrun by exact Hframe. discriminate.
Qed.

Lemma concat_length_uniform A (l : list (list A)) (n : nat) :
  Forall (fun b => length b = n) l -> length (concat l) = length l * n.
Proof.
  induction 1 as [|b r Hb _ IH]; [reflexivity|].
  cbn [concat length]. rewrite length_app, IH, Hb. lia.
Qed.

(** A run of the flat pipeline that returns gives as many solid rows as
    were allocated ahead of the loop: the truncated quotient of the
    requested range by the stride, times the number of solid atoms; and
    it has visited no more frames than that quotient. *)
Lemma slab_run_rows u topology cutoff pbc s e f w liq sol w' :
  _compute_distribution_for_system_with_two_periodic_directions
    pack_into_box u topology cutoff pbc s e f w = (Ok (liq, sol), w') ->
  exists frames,
    frames_of u s e f = Ok frames
    /\ length frames <= Z.to_nat (Z.quot (e - s) f)
    /\ length (rows sol)
       = Z.to_nat (Z.quot (e - s) f) * length (select_atoms u solid_names).
Proof.
  unfold _compute_distribution_for_system_with_two_periodic_directions.
  rewrite bind_lift. destruct (periodic_vector_of F pbc); [|discriminate].
  do 2 step.
  rewrite bind_lift. unfold py_int_div.
  destruct (f =? 0)%Z; [discriminate|].
  rewrite bind_lift. unfold np_zeros3.
  destruct (Z.quot (e - s) f <? 0)%Z; [discriminate|].
  rewrite bind_lift. destruct (frames_of u s e f) as [frames|]; [|discriminate].
  match goal with
  | |- bind (for_frames u ?body 0 frames ?acc0) _ ?w0 = _ -> _ =>
      destruct (for_frames u body 0 frames acc0 w0) as [[acc1|err] w1] eqn:Hloop
  end.
  - erewrite bind_ok by exact Hloop. cbv beta.
    apply slab_loop_blocks in Hloop. cbn [solid_all] in Hloop.
    destruct Hloop as (Hn & Hl & Hall).
    rewrite repeat_length in Hn, Hl.
    assert (Hrows : length (concat (solid_all acc1))
                    = Z.to_nat (Z.quot (e - s) f)
                      * length (select_atoms u solid_names)).
    { rewrite <- Hl. apply concat_length_uniform. apply Hall.
      apply Forall_forall. intros b Hb.
      apply repeat_spec in Hb. subst b. apply repeat_length. }
    rewrite bind_lift. destruct (column_stack F _ _); [|discriminate].
    rewrite bind_lift. unfold np_concatenate.
    destruct (solid_all acc1) as [|b0 br] eqn:Hblocks; [discriminate|].
    unfold ret. intros H. injection H as _ <- _.
    exists frames. split; [reflexivity|]. split.
    + destruct Hn as [->|Hn]; cbn [length]; lia.
    + exact Hrows.
  - erewrite bind_err by exact Hloop. discriminate.
Qed.

(** The entry point validates nothing: any list of periodic directions
    whose length is not 1 goes to the flat pipeline as it is. *)
Lemma entry_dispatch_slab u topology cutoff pbc s e f radius len :
  length pbc <> 1 ->
  compute_spatial_distribution_of_atoms_on_interface
    N pack_into_box rotation_matrix u topology cutoff pbc s e f radius len
  = _compute_distribution_for_system_with_two_periodic_directions
      pack_into_box u topology cutoff pbc s e f.
Proof.
  intros H. unfold compute_spatial_distribution_of_atoms_on_interface.
  apply Nat.eqb_neq in H. now rewrite H.
Qed.


(** ** The flat pipeline: ranges it cannot handle *)

(** A requested range shorter than the stride, empty or negative: nothing
    is allocated and the run raises, at [np.zeros], inside the first
    frame, or at [np.concatenate]. *)
Lemma slab_run_short_range u topology cutoff pbc s e f w :
  (Z.quot (e - s) f <= 0)%Z ->
  is_ok (fst (_compute_distribution_for_system_with_two_periodic_directions
                pack_into_box u topology cutoff pbc s e f w)) = false.
Proof.
  intros Hq. unfold _compute_distribution_for_system_with_two_periodic_directions.
  rewrite bind_lift. destruct (periodic_vector_of F pbc); [|reflexivity].
  do 2 step.
  rewrite bind_lift. unfold py_int_div. destruct (f =? 0)%Z; [reflexivity|].
  rewrite bind_lift. unfold np_zeros3.
  destruct (Z.quot (e - s) f <? 0)%Z eqn:Eq; [reflexivity|].
  apply Z.ltb_ge in Eq.
  assert (H0 : Z.quot (e - s) f = 0%Z) by lia. rewrite H0. cbn [Z.to_nat repeat].
  rewrite bind_lift. destruct (frames_of u s e f) as [frames|]; [|reflexivity].
  match goal with
  | |- context [bind (for_frames u ?body 0 frames ?acc0) _ ?w0] =>
      destruct (for_frames u body 0 frames acc0 w0) as [[acc1|err] w1] eqn:Hloop
  end.
  - erewrite bind_ok by exact Hloop. cbv beta.
    apply slab_loop_blocks in Hloop. destruct Hloop as (_ & Hl & _).
    cbn [solid_all length] in Hl.
    rewrite bind_lift. destruct (column_stack F _ _); [|reflexivity].
    rewrite bind_lift. destruct (solid_all acc1); [reflexivity|discriminate].
  - erewrite bind_err by exact Hloop. reflexivity.
Qed.

(** A zero stride is met first by the division of line 274, after the
    wrap ahead of the loop. *)
Lemma slab_run_zero_stride u topology cutoff pbc s e w :
  forallb (fun a => a <? 3) pbc = true ->
  _compute_distribution_for_system_with_two_periodic_directions
    pack_into_box u topology cutoff pbc s e 0 w
  = (Err ZeroDivisionError,
     {| positions := pack_into_box topology (positions w);
        trace := trace w ++ [EvPack F] |}).
Proof.
  intros Hpbc. unfold _compute_distribution_for_system_with_two_periodic_directions.
  unfold periodic_vector_of. rewrite Hpbc.
  do 3 step. reflexivity.
Qed.

Lemma slab_loop_fails u topology cutoff a b not_pbc solid liquid anchor i rest count acc w :
  2 <= a \/ 2 <= b ->
  is_ok (fst (for_frames u (slab_frame pack_into_box u topology cutoff [a; b] not_pbc
                                       solid liquid anchor)
                         count (i :: rest) acc w)) = false.
Proof.
  intros Hab. cbn [for_frames]. unfold load_frame.
  erewrite bind_ok by apply mutate_run. cbv beta.
  match goal with
  | |- context [bind (slab_frame _ _ _ _ _ _ _ _ _ ?c ?ac) _ ?w0] =>
      pose proof (slab_frame_fails u topology cutoff not_pbc solid liquid anchor
                                   c ac w0 Hab) as Hf;
      destruct (slab_frame pack_into_box u topology cutoff [a; b] not_pbc solid
                           liquid anchor c ac w0) as [[acc1|err] w1] eqn:Hframe
  end.
  - discriminate.
  - erewrite bind_err by exact Hframe. reflexivity.
Qed.

(** Two periodic directions one of which is axis 2 (or beyond): a run
    that has a frame to visit raises. *)
Lemma slab_run_fails_third_axis u topology cutoff a b s e f w frames :
  2 <= a \/ 2 <= b ->
  frames_of u s e f = Ok frames -> frames <> [] ->
  is_ok (fst (_compute_distribution_for_system_with_two_periodic_directions
                pack_into_box u topology cutoff [a; b] s e f w)) = false.
Proof.
  intros Hab Hframes Hne.
  unfold _compute_distribution_for_system_with_two_periodic_directions.
  rewrite bind_lift. destruct (periodic_vector_of F [a; b]); [|reflexivity].
  do 2 step.
  rewrite bind_lift. destruct (py_int_div (e - s) f); [|reflexivity].
  rewrite bind_lift. destruct (np_zeros3 F _ _) as [blocks|]; [|reflexivity].
  rewrite Hframes. step.
  destruct frames as [|i rest]; [contradiction|].
  match goal with
  | |- context [bind (for_frames u ?body 0 (i :: rest) ?acc0) _ ?w0] =>
      assert (Hf : is_ok (fst (for_frames u body 0 (i :: rest) acc0 w0)) = false)
        by exact (slab_loop_fails u topology cutoff (set_symdiff_012 [a; b])
                                  (select_atoms u solid_names)
                                  (select_atoms u ["O"%string])
                                  (com_of u (all_atoms u)
                                          (pack_into_box topology (positions w)))
                                  i rest 0 acc0 w0 Hab);
      destruct (for_frames u body 0 (i :: rest) acc0 w0) as [[acc1|err] w1] eqn:Hloop
  end.
  - discriminate.
  - erewrite bind_err by exact Hloop. reflexivity.
Qed.

Lemma concat_repeat_repeat A (x : A) (k n : nat) :
  concat (repeat (repeat x k) n) = repeat x (n * k).
Proof.
  induction n as [|n IH]; [reflexivity|].
  cbn [repeat concat Nat.mul]. now rewrite IH, repeat_app.
Qed.

(** A range that requests frames but lies beyond the end of the
    trajectory: no frame is visited and the run returns the array of
    zeros that was allocated ahead of the loop, with no liquid point. *)
Lemma slab_run_no_frames u topology cutoff pbc s e f w :
  forallb (fun a => a <? 3) pbc = true ->
  frames_of u s e f = Ok [] ->
  (0 < Z.quot (e - s) f)%Z ->
  _compute_distribution_for_system_with_two_periodic_directions
    pack_into_box u topology cutoff pbc s e f w
  = (Ok ({| ncols := 2; rows := [] |},
         {| ncols := 2;
            rows := repeat [zero F; zero F]
                           (Z.to_nat (Z.quot (e - s) f)
                            * length (select_atoms u solid_names)) |}),
     {| positions := pack_into_box topology (positions w);
        trace := trace w ++ [EvPack F] |}).
Proof.
  intros Hpbc Hframes Hq.
  assert (Hf : (f =? 0)%Z = false).
  { apply Z.eqb_neq. intros ->. rewrite Z.quot_0_r_ext in Hq by reflexivity. lia. }
  unfold _compute_distribution_for_system_with_two_periodic_directions.
  unfold periodic_vector_of at 1. rewrite Hpbc.
  do 3 step. unfold py_int_div. rewrite Hf. step.
  unfold np_zeros3. rewrite (proj2 (Z.ltb_ge _ _)) by lia. step.
  rewrite Hframes. step. cbn [for_frames]. unfold ret at 1.
  erewrite bind_ok by reflexivity. cbv beta.
  cbn [slab_liquid liquid_contact_coord1 liquid_contact_coord2 solid_all].
  change (column_stack F [] []) with (Ok (@Build_arr2 F 2 [])). step.
  unfold np_concatenate.
  destruct (Z.to_nat (Z.quot (e - s) f)) as [|n] eqn:En; [lia|].
  rewrite <- En. destruct (repeat _ (Z.to_nat _)) as [|b0 br] eqn:Hrep.
  { rewrite En in Hrep. discriminate. }
  step. unfold ret. rewrite <- Hrep, concat_repeat_repeat. reflexivity.
Qed.

(** ** What a frame leaves in the position buffer *)

(** A frame of the tube loop: every position is translated by the
    displacement of the solid centre of mass, moved to the centre of mass
    of all atoms, rotated, moved back and wrapped. *)
Lemma tube_frame_world u topology cutoff pbc n0 n1 pv solid liquid anchor ref circ count acc w :
  let translation_from_frame0 := vsub (com_of u solid (positions w)) anchor in
  let translated := map (fun p => vsub p translation_from_frame0) (positions w) in
  let COM := com_of u (all_atoms u) translated in
  let centred := map (fun p => vsub p COM) translated in
  exists angle acc',
    angle_anchor_first_axis
      N (mean_axis0 [n0; n1] (select (vzero F) (select (vzero F) centred solid) ref))
    = Ok angle
    /\ tube_frame N pack_into_box rotation_matrix u topology cutoff pbc [n0; n1] pv
                  solid liquid anchor ref circ count acc w
       = (Ok acc',
          {| positions :=
               pack_into_box topology
                 (map (fun p => vadd p COM)
                      (map (mat_vec (rotation_matrix pv angle)) centred));
             trace := trace w ++ [ EvTranslate translation_from_frame0;
                                   EvRecenter F; EvRotate F; EvRestore F; EvPack F ] |}).
Proof.
  intros delta translated COM centred.
  set (ax := mean_axis0 [n0; n1]
                        (select (vzero F) (select (vzero F) centred solid) ref)).
  destruct (angle_of_two (nth 0 ax (zero F)) (nth 1 ax (zero F))) as [angle Hangle].
  change [nth 0 ax (zero F); nth 1 ax (zero F)] with ax in Hangle.
  exists angle. eexists. split; [exact Hangle|].
  unfold tube_frame.
  step. step. step. step. step.
  match goal with
  | |- context [angle_anchor_first_axis N ?ax'] => change ax' with ax
  end.
  rewrite Hangle. step. step. step. step. step. step.
  change (py_nth [n0; n1] 1) with (Ok n1).
  change (py_nth [n0; n1] 0) with (Ok n0).
  step. step. step. step. step.
  unfold ret. apply f_equal2; [reflexivity|].
  cbn [positions trace]. apply f_equal2; [reflexivity|].
  repeat rewrite <- app_assoc. reflexivity.
Qed.

(** A frame of the flat loop, whether it completes or raises: every
    position is wrapped, translated by the displacement of the centre of
    mass of all atoms, and wrapped again. *)
Lemma slab_frame_world u topology cutoff pbc not_pbc solid liquid anchor count acc w :
  let wrapped := pack_into_box topology (positions w) in
  let translation_from_frame0 := vsub (com_of u (all_atoms u) wrapped) anchor in
  snd (slab_frame pack_into_box u topology cutoff pbc not_pbc solid liquid anchor
                  count acc w)
  = {| positions :=
         pack_into_box topology (map (fun p => vsub p translation_from_frame0) wrapped);
       trace := trace w ++ [ EvPack F; EvTranslate translation_from_frame0; EvPack F ] |}.
Proof.
  intros wrapped delta. unfold slab_frame.
  do 6 step.
  repeat first
    [ rewrite bind_lift;
      match goal with
      | |- context [match ?r with Ok _ => _ | Err _ => _ end] => destruct r
      end
    | step ];
    cbn [snd trace positions ret]; repeat rewrite <- app_assoc; reflexivity.
Qed.

(** The frames a flat loop has entered, whatever its outcome: a prefix
    of the frames it was given, all of them when it returns. *)
Lemma slab_loop_visited u topology cutoff pbc not_pbc solid liquid anchor :
  forall frames count acc w,
  exists k,
    trace (snd (for_frames u (slab_frame pack_into_box u topology cutoff pbc not_pbc
                                         solid liquid anchor)
                           count frames acc w))
    = trace w ++ flat_map (slab_events pack_into_box u topology anchor) (firstn k frames)
    /\ (is_ok (fst (for_frames u (slab_frame pack_into_box u topology cutoff pbc not_pbc
                                            solid liquid anchor)
                              count frames acc w)) = true ->
        firstn k frames = frames).
Proof.
  induction frames as [|i rest IH]; intros count acc w.
  - exists 0. cbn. rewrite app_nil_r. auto.
  - cbn [for_frames]. unfold load_frame.
    erewrite bind_ok by apply mutate_run. cbv beta.
    match goal with
    | |- context [bind (slab_frame _ _ _ _ _ _ _ _ _ ?c ?ac) _ ?w0] =>
        pose proof (slab_frame_trace u topology cutoff pbc not_pbc solid liquid
                                     anchor c ac w0) as Htr;
        destruct (slab_frame pack_into_box u topology cutoff pbc not_pbc solid
                             liquid anchor c ac w0) as [[acc1|err] w1] eqn:Hframe
    end.
    + erewrite bind_ok by exact Hframe. cbv beta.
      destruct (IH (S count) acc1 w1) as (k & Hk & Hall).
      exists (S k). split.
      * rewrite Hk. cbn [snd] in Htr. rewrite Htr.
        cbn [trace positions firstn flat_map slab_events].
        repeat rewrite <- app_assoc. reflexivity.
      * intros Hok. cbn [firstn]. now rewrite Hall.
    + erewrite bind_err by exact Hframe. exists 1. split.
      * cbn [snd] in *. rewrite Htr.
        cbn [trace positions firstn flat_map slab_events].
        repeat rewrite <- app_assoc. reflexivity.
      * discriminate.
Qed.

(** The same for a run of the flat pipeline: it has wrapped once ahead of
    the loop, unless it raised before that, and entered a prefix of the
    frames of its range. *)
Lemma slab_run_visited u topology cutoff pbc s e f w :
  exists visited pre,
    trace (snd (_compute_distribution_for_system_with_two_periodic_directions
                  pack_into_box u topology cutoff pbc s e f w))
    = trace w ++ pre
      ++ flat_map (slab_events pack_into_box u topology
                               (com_of u (all_atoms u)
                                       (pack_into_box topology (positions w))))
                  visited
    /\ (pre = [] \/ pre = [EvPack F])
    /\ (forall frames, frames_of u s e f = Ok frames ->
        exists k, visited = firstn k frames)
    /\ (is_ok (fst (_compute_distribution_for_system_with_two_periodic_directions
                      pack_into_box u topology cutoff pbc s e f w)) = true ->
        frames_of u s e f = Ok visited).
Proof.
  unfold _compute_distribution_for_system_with_two_periodic_directions.
  assert (Hnone : forall frames : list nat, exists k, @nil nat = firstn k frames)
    by (intros frames; exists 0; reflexivity).
  rewrite bind_lift. destruct (periodic_vector_of F pbc).
  2:{ exists [], []. cbn. rewrite app_nil_r. repeat split; auto; discriminate. }
  do 2 step.
  rewrite bind_lift. destruct (py_int_div (e - s) f).
  2:{ exists [], [EvPack F]. cbn. repeat split; auto; discriminate. }
  rewrite bind_lift. destruct (np_zeros3 F _ _) as [blocks|].
  2:{ exists [], [EvPack F]. cbn. repeat split; auto; discriminate. }
  rewrite bind_lift. destruct (frames_of u s e f) as [frames|].
  2:{ exists [], [EvPack F]. cbn. repeat split; auto; discriminate. }
  match goal with
  | |- context [bind (for_frames u ?body 0 frames ?acc0) _ ?w0] =>
      assert (Hv : exists k,
                 trace (snd (for_frames u body 0 frames acc0 w0))
                 = trace w0
                   ++ flat_map (slab_events pack_into_box u topology
                                  (com_of u (all_atoms u)
                                          (pack_into_box topology (positions w))))
                               (firstn k frames)
                 /\ (is_ok (fst (for_frames u body 0 frames acc0 w0)) = true ->
                     firstn k frames = frames))
        by exact (slab_loop_visited u topology cutoff pbc (set_symdiff_012 pbc)
                    (select_atoms u solid_names) (select_atoms u ["O"%string])
                    (com_of u (all_atoms u) (pack_into_box topology (positions w)))
                    frames 0 acc0 w0);
      destruct Hv as (k & Hk & Hall);
      destruct (for_frames u body 0 frames acc0 w0) as [[acc1|err] w1] eqn:Hloop
  end.
  - erewrite bind_ok by exact Hloop. cbv beta. cbn [snd fst is_ok trace] in Hk, Hall.
    specialize (Hall eq_refl).
    exists (firstn k frames), [EvPack F].
    assert (Htrace : trace w1
                     = trace w ++ [EvPack F]
                       ++ flat_map (slab_events pack_into_box u topology
                                      (com_of u (all_atoms u)
                                              (pack_into_box topology (positions w))))
                                   (firstn k frames))
      by (rewrite Hk; cbn [trace positions]; now rewrite <- app_assoc).
    rewrite bind_lift. destruct (column_stack F _ _).
    2:{ cbn [snd fst is_ok]. split; [exact Htrace|]. split; [now right|].
        split; [|discriminate].
        intros frames' H. injection H as <-. now exists k. }
    rewrite bind_lift. destruct (np_concatenate _);
      cbn [snd fst is_ok ret]; (split; [exact Htrace|]); (split; [now right|]);
      (split; [intros frames' H; injection H as <-; now exists k|]).
    + intros _. now rewrite Hall.
    + discriminate.
  - erewrite bind_err by exact Hloop. cbn [snd fst is_ok trace] in *.
    exists (firstn k frames), [EvPack F].
    split; [rewrite Hk; cbn [trace positions]; now rewrite <- app_assoc|].
    split; [now right|]. split; [|discriminate].
    intros frames' H. injection H as <-. now exists k.
Qed.

(** ** The flat pipeline wants exactly two periodic directions *)



(** ** One turn of each loop: what it leaves in the universe *)

Lemma tube_iteration_world u topology cutoff pbc n0 n1 pv solid liquid anchor ref circ
      count acc w i :
  let loaded := nth i (trajectory u) [] in
  let translation_from_frame0 := vsub (com_of u solid loaded) anchor in
  let translated := map (fun p => vsub p translation_from_frame0) loaded in
  let COM := com_of u (all_atoms u) translated in
  let centred := map (fun p => vsub p COM) translated in
  exists angle acc',
    angle_anchor_first_axis
      N (mean_axis0 [n0; n1] (select (vzero F) (select (vzero F) centred solid) ref))
    = Ok angle
    /\ for_frames u (tube_frame N pack_into_box rotation_matrix u topology cutoff pbc
                                [n0; n1] pv solid liquid anchor ref circ)
                  count [i] acc w
       = (Ok acc',
          {| positions :=
               pack_into_box topology
                 (map (fun p => vadd p COM)
                      (map (mat_vec (rotation_matrix pv angle)) centred));
             trace := trace w ++ tube_events u solid anchor i |}).
Proof.
  intros loaded delta translated COM centred.
  cbn [for_frames]. unfold load_frame.
  erewrite bind_ok by apply mutate_run. cbv beta.
  match goal with
  | |- context [bind _ _ ?w0] =>
      destruct (tube_frame_world u topology cutoff pbc n0 n1 pv solid liquid anchor ref
                                 circ count acc w0) as (angle & acc' & Hangle & Hframe)
  end.
  cbn [positions trace] in Hangle, Hframe.
  exists angle, acc'. split; [exact Hangle|].
  erewrite bind_ok by exact Hframe. cbv beta. unfold ret.
  apply f_equal2; [reflexivity|].
  apply f_equal2; [reflexivity|].
  unfold tube_events. rewrite <- app_assoc. reflexivity.
Qed.

Lemma slab_iteration_world u topology cutoff pbc not_pbc solid liquid anchor count acc w i :
  let wrapped := pack_into_box topology (nth i (trajectory u) []) in
  let translation_from_frame0 := vsub (com_of u (all_atoms u) wrapped) anchor in
  snd (for_frames u (slab_frame pack_into_box u topology cutoff pbc not_pbc solid liquid
                                anchor)
                  count [i] acc w)
  = {| positions :=
         pack_into_box topology (map (fun p => vsub p translation_from_frame0) wrapped);
       trace := trace w ++ slab_events pack_into_box u topology anchor i |}.
Proof.
  intros wrapped delta.
  cbn [for_frames]. unfold load_frame.
  erewrite bind_ok by apply mutate_run. cbv beta.
  match goal with
  | |- context [bind (slab_frame _ _ _ _ _ _ _ _ _ _ _) _ ?w0] =>
      pose proof (slab_frame_world u topology cutoff pbc not_pbc solid liquid anchor
                                   count acc w0) as Hworld;
      cbv zeta in Hworld; cbn [positions trace] in Hworld;
      destruct (slab_frame pack_into_box u topology cutoff pbc not_pbc solid liquid
                           anchor count acc w0) as [[acc'|err] w1] eqn:Hframe
  end.
  - erewrite bind_ok by exact Hframe. cbv beta. unfold ret.
    cbn [snd] in *. rewrite Hworld.
    apply f_equal2; [reflexivity|].
    unfold slab_events. rewrite <- app_assoc. reflexivity.
  - erewrite bind_err by exact Hframe.
    cbn [snd] in *. rewrite Hworld.
    apply f_equal2; [reflexivity|].
    unfold slab_events. rewrite <- app_assoc. reflexivity.
Qed.

(** ** What the tube loop keeps true of the angular coordinates *)




(** ** The tube pipeline: what stops it before the loop *)

(** A periodic index beyond the three axes: IndexError at line 89,
    before anything is changed. *)
Lemma tube_index_out_of_range u topology cutoff a s e f radius len w :
  3 <= a ->
  compute_spatial_distribution_of_atoms_on_interface
    N pack_into_box rotation_matrix u topology cutoff [a] s e f radius len w
  = (Err IndexError, w).
Proof.
  intros H.
  unfold compute_spatial_distribution_of_atoms_on_interface. cbn [length Nat.eqb].
  unfold _compute_distribution_for_system_with_one_periodic_direction.
  unfold periodic_vector_of. cbn [forallb].
  rewrite (proj2 (Nat.ltb_ge a 3)) by lia. reflexivity.
Qed.

(** A zero stride on a slice that is the whole trajectory is refused by
    the reader: ValueError, before anything is changed. *)
Lemma tube_zero_stride u topology cutoff a s e radius len w :
  a < 3 -> select_atoms u solid_names <> [] ->
  whole_trajectory s e (length (trajectory u)) = true ->
  compute_spatial_distribution_of_atoms_on_interface
    N pack_into_box rotation_matrix u topology cutoff [a] s e 0
    (Some radius) (Some len) w
  = (Err ValueError, w).
Proof.
  intros Ha Hsolid Hwhole.
  destruct (confined_axes_of_one Ha) as (n0 & n1 & pv & Hnot & Hpv).
  unfold compute_spatial_distribution_of_atoms_on_interface. cbn [length Nat.eqb].
  remember (select_atoms u solid_names) as solid eqn:Es.
  destruct solid as [|s0 srest]; [contradiction|].
  unfold _compute_distribution_for_system_with_one_periodic_direction.
  rewrite Hnot, Hpv, <- Es.
  do 2 step.
  unfold _get_atom_ids_on_same_tube_axis.
  erewrite bind_ok.
  2:{ step. cbn [select map py_nth nth_error]. step. cbn [required]. step.
      unfold ret. reflexivity. }
  cbv beta. cbn [required]. step.
  unfold frames_of. cbn [Z.eqb]. rewrite Hwhole.
  reflexivity.
Qed.


(** ** The flat pipeline: an index that is not an axis *)


End PipelineFacts.

(** ** The frames a run visits *)

Lemma firstn_seq (k a n : nat) : firstn k (seq a n) = seq a (Nat.min k n).
Proof.
  revert a n. induction k as [|k IH]; intros a [|n]; cbn; auto.
  now rewrite IH.
Qed.

Lemma every_nth_seq (k : nat) :
  0 < k ->
  forall m a skip,
    every_nth k skip (seq a m)
    = map (fun j => a + skip + j * k) (seq 0 ((m + k - 1 - skip) / k)).
Proof.
  intros Hk. induction m as [|m IH]; intros a skip.
  - cbn [seq every_nth]. rewrite Nat.div_small by lia. reflexivity.
  - cbn [seq every_nth]. destruct skip as [|skip].
    + rewrite IH.
      replace (S m + k - 1 - 0) with (m + 1 * k) by lia.
      rewrite Nat.div_add by lia.
      replace (m + k - 1 - (k - 1)) with m by lia.
      rewrite Nat.add_1_r. cbn [seq map]. f_equal; [lia|].
      rewrite <- seq_shift, map_map. apply map_ext. intros j. lia.
    + rewrite IH.
      replace (S m + k - 1 - S skip) with (m + k - 1 - skip) by lia.
      apply map_ext. intros j. lia.
Qed.

Lemma py_slice_seq (s e : Z) (n : nat) :
  (0 <= s <= e)%Z -> (e <= Z.of_nat n)%Z ->
  py_slice s e (seq 0 n) = seq (Z.to_nat s) (Z.to_nat (e - s)).
Proof.
  intros Hse Hen. unfold py_slice, py_bound. rewrite length_seq.
  rewrite (proj2 (Z.ltb_ge s 0)), (proj2 (Z.ltb_ge e 0)) by lia.
  rewrite skipn_seq, firstn_seq. cbn [Nat.add]. f_equal; lia.
Qed.

Lemma frames_of_range (F : Scalar) (u : universe F) (s e f : Z) :
  (0 <= s <= e)%Z -> (e <= Z.of_nat (length (trajectory u)))%Z -> (0 < f)%Z ->
  frames_of u s e f
  = Ok (map (fun j => Z.to_nat s + j * Z.to_nat f)
            (seq 0 ((Z.to_nat (e - s) + Z.to_nat f - 1) / Z.to_nat f))).
Proof.
  intros Hse Hen Hf. unfold frames_of. rewrite py_slice_seq by assumption.
  unfold py_stride.
  rewrite (proj2 (Z.eqb_neq f 0)) by lia.
  rewrite (proj2 (Z.ltb_lt 0 f)) by lia.
  rewrite every_nth_seq by lia. f_equal.
  rewrite Nat.sub_0_r. apply map_ext. intros j. lia.
Qed.

Lemma ceil_exceeds_floor (m k : nat) :
  0 < k -> m mod k <> 0 -> m / k < (m + k - 1) / k.
Proof.
  intros Hk Hr.
  pose proof (Nat.div_mod_eq m k) as Hm.
  pose proof (Nat.mod_upper_bound m k ltac:(lia)) as Hb.
  rewrite <- (Nat.div_unique (m + k - 1) k (S (m / k)) (m mod k - 1)); nia.
Qed.

Lemma ceil_is_floor (m k : nat) :
  0 < k -> m mod k = 0 -> (m + k - 1) / k = m / k.
Proof.
  intros Hk Hr.
  pose proof (Nat.div_mod_eq m k) as Hm.
  symmetry. apply (Nat.div_unique (m + k - 1) k (m / k) (k - 1)); nia.
Qed.

(** ** Reading the traces of the two loops *)

Section TraceFacts.

Variable F : Scalar.

Lemma translations_app (a b : list (event F)) :
  translations (a ++ b) = translations a ++ translations b.
Proof.
  induction a as [|ev a IH]; [reflexivity|].
  destruct ev; cbn [app translations]; rewrite IH; reflexivity.
Qed.

Lemma tube_events_kinds (u : universe F) solid anchor frames :
  map kind (flat_map (tube_events u solid anchor) frames)
  = flat_map (fun _ => tube_frame_kinds) frames.
Proof.
  induction frames as [|i rest IH]; [reflexivity|].
  cbn [flat_map]. rewrite map_app, IH. reflexivity.
Qed.

Lemma tube_events_translations (u : universe F) solid anchor frames :
  translations (flat_map (tube_events u solid anchor) frames)
  = map (fun i => vsub (com_of u solid (nth i (trajectory u) [])) anchor) frames.
Proof.
  induction frames as [|i rest IH]; [reflexivity|].
  cbn [flat_map map]. rewrite translations_app, IH. reflexivity.
Qed.

Lemma slab_events_kinds Cell (pack_into_box : Cell -> list (vec3 F) -> list (vec3 F))
      (u : universe F) topology anchor frames :
  map kind (flat_map (slab_events pack_into_box u topology anchor) frames)
  = flat_map (fun _ => slab_frame_kinds) frames.
Proof.
  induction frames as [|i rest IH]; [reflexivity|].
  cbn [flat_map]. rewrite map_app, IH. reflexivity.
Qed.

Lemma slab_events_translations Cell
      (pack_into_box : Cell -> list (vec3 F) -> list (vec3 F))
      (u : universe F) topology anchor frames :
  translations (flat_map (slab_events pack_into_box u topology anchor) frames)
  = map (fun i => vsub (com_of u (all_atoms u)
                               (pack_into_box topology (nth i (trajectory u) [])))
                       anchor) frames.
Proof.
  induction frames as [|i rest IH]; [reflexivity|].
  cbn [flat_map map]. rewrite translations_app, IH. reflexivity.
Qed.

End TraceFacts.

Lemma slab_kinds_wrapped (A : Type) (frames : list A) (b : bool) :
  wrapped_at_translations b (flat_map (fun _ => slab_frame_kinds) frames) = true.
Proof.
  revert b. induction frames as [|i rest IH]; intros b; [reflexivity|].
  cbn. apply IH.
Qed.

Lemma tube_kinds_not_wrapped (A : Type) (frames : list A) (b : bool) :
  frames <> [] ->
  wrapped_at_translations b (flat_map (fun _ => tube_frame_kinds) frames) = false.
Proof.
  destruct frames as [|i rest]; [contradiction|]. intros _. reflexivity.
Qed.

(** ** Clipping *)

Lemma np_clip_cases (F : Scalar) (x lo hi : F) :
  leb F lo hi = true -> leb F lo lo = true -> leb F hi hi = true ->
  clipped_or_unordered F x lo hi (np_clip F x lo hi).
Proof.
  intros Hlh Hll Hhh. unfold clipped_or_unordered, np_clip.
  destruct (leb F lo x) eqn:E1.
  - destruct (leb F x hi) eqn:E2; [left; split; assumption|].
    destruct (leb F hi x) eqn:E3; [left; split; assumption|].
    right. split; [reflexivity|]. right. split; reflexivity.
  - destruct (leb F x lo) eqn:E2.
    + rewrite Hlh. left. split; assumption.
    + destruct (leb F x hi) eqn:E3; [right; split; [reflexivity|left; split; reflexivity]|].
      destruct (leb F hi x) eqn:E4; [left; split; assumption|].
      right. split; [reflexivity|]. left. split; reflexivity.
Qed.

(** ** Exact real arithmetic *)

Lemma Rleb_true (a b : R) : (a <= b)%R -> Rleb a b = true.
Proof. intros H. unfold Rleb. destruct (Rle_dec a b); [reflexivity|contradiction]. Qed.

Lemma Rleb_iff (a b : R) : Rleb a b = true <-> (a <= b)%R.
Proof.
  unfold Rleb. destruct (Rle_dec a b); split; intros H;
    try assumption; try reflexivity; try discriminate; contradiction.
Qed.






(** An axis along the fixed direction (1, 0): the ratio is exactly 1 and
    the angle exactly 0. *)
Lemma normed_dot_product_aligned : normed_dot_product Rs [1; 0]%R = Ok 1%R.
Proof.
  unfold normed_dot_product, np_dot. cbn [length Nat.eqb].
  cbv [norm sum_list fold_left map combine fst snd add mul zero one div opp sqrt Rs].
  replace (0 + 1 * 1 + 0 * 0)%R with 1%R by lra.
  rewrite sqrt_1. replace (1 / 1)%R with 1%R by field.
  unfold np_clip. cbv [leb Rs].
  rewrite (Rleb_true (a := Ropp 1) (b := 1%R)) by lra.
  rewrite (Rleb_true (a := 1%R) (b := 1%R)) by lra.
  reflexivity.
Qed.

Lemma angle_aligned : angle_anchor_first_axis Rnumpy [1; 0]%R = Ok 0%R.
Proof.
  unfold angle_anchor_first_axis. rewrite normed_dot_product_aligned.
  cbn [py_nth nth_error]. cbv [leb zero Rs arccos Rnumpy].
  rewrite (Rleb_true (a := 0%R) (b := 0%R)) by lra.
  now rewrite acos_1.
Qed.

Lemma Rplus_0_l_assoc (a b : R) : (0 + a + b = a + b)%R.
Proof. ring. Qed.

(** Over the reals the tube criterion is the Euclidean norm of the two
    confined components against the cutoff. *)
Lemma tube_in_contact_R (cutoff : R) (n0 n1 : nat) (v : vec3 Rs) :
  tube_in_contact (F := Rs) cutoff [n0; n1] v = true
  <-> (cutoff <= R_sqrt.sqrt (vget v n0 * vget v n0 + vget v n1 * vget v n1))%R.
Proof.
  unfold tube_in_contact. cbv [leb Rs]. rewrite Rleb_iff.
  cbv [norm vtake sum_list fold_left map add mul zero sqrt Rs].
  match goal with
  | |- (_ <= R_sqrt.sqrt ?a)%R <-> (_ <= R_sqrt.sqrt ?b)%R =>
      assert (a = b) as -> by apply Rplus_0_l_assoc
  end.
  reflexivity.
Qed.

Lemma ok_run_inv (A W : Type) (r : result A * W) :
  is_ok (fst r) = true -> exists a, r = (Ok a, snd r).
Proof.
  destruct r as [[a|e] w]; cbn; intros H; [exists a; reflexivity|discriminate].
Qed.

Lemma tube_universe_has_solid : select_atoms tube_universe solid_names <> [].
Proof. unfold select_atoms, tube_universe. cbn [names]. vm_compute. discriminate. Qed.

Lemma tube_universe_frames : frames_of tube_universe 0 2 1 = Ok [0; 1].
Proof. unfold frames_of, tube_universe. cbn [trajectory length]. reflexivity. Qed.

(** ** The reference atoms of the rotation *)

Lemma firstn_In_inv A (x : A) (k : nat) (l : list A) : In x (firstn k l) -> In x l.
Proof.
  intros H. rewrite <- (firstn_skipn k l). apply in_or_app. now left.
Qed.

Lemma firstn_NoDup A (k : nat) (l : list A) : NoDup l -> NoDup (firstn k l).
Proof.
  intros H. rewrite <- (firstn_skipn k l) in H. now apply NoDup_app_remove_r in H.
Qed.

Lemma py_slice_prefix A (k : Z) (l : list A) :
  (0 <= k)%Z -> py_slice 0 k l = firstn (Z.to_nat k) l.
Proof.
  intros Hk. unfold py_slice, py_bound.
  rewrite (proj2 (Z.ltb_ge k 0)) by lia. cbn [Z.ltb Z.compare].
  replace (Z.to_nat (Z.max 0 (Z.min 0 (Z.of_nat (length l))))) with 0 by lia.
  cbn [skipn]. rewrite Nat.sub_0_r.
  destruct (Z.le_ge_cases k (Z.of_nat (length l))) as [H|H].
  - f_equal. lia.
  - replace (Z.to_nat (Z.max 0 (Z.min k (Z.of_nat (length l))))) with (length l) by lia.
    rewrite firstn_all. symmetry. apply firstn_all2. lia.
Qed.

Section ReferenceAtoms.

Variable F : Scalar.
Variable N : Numpy F.

Lemma get_atom_ids_run s0 srest len not_pbc (w : world F) :
  exists dists,
    length dists = length (s0 :: srest)
    /\ _get_atom_ids_on_same_tube_axis N (s0 :: srest) (Some len) not_pbc w
       = (Ok (py_slice 0 (2 * len) (argsort N dists)), w).
Proof.
  eexists. split; [|reflexivity].
  unfold select. now repeat rewrite length_map.
Qed.

Lemma get_atom_ids_spec solid len not_pbc (w : world F) :
  (forall l, Permutation (argsort N l) (seq 0 (length l))) ->
  solid <> [] -> (0 <= len)%Z ->
  exists ids,
    _get_atom_ids_on_same_tube_axis N solid (Some len) not_pbc w = (Ok ids, w)
    /\ length ids = Nat.min (Z.to_nat (2 * len)) (length solid)
    /\ NoDup ids
    /\ Forall (fun i => i < length solid) ids.
Proof.
  intros Hperm Hsolid Hlen.
  destruct solid as [|s0 srest]; [contradiction|].
  destruct (get_atom_ids_run s0 srest len not_pbc w) as (dists & Hd & Hrun).
  eexists. split; [exact Hrun|].
  rewrite py_slice_prefix by lia.
  pose proof (Hperm dists) as Hp.
  split; [|split].
  - rewrite length_firstn, (Permutation_length Hp), length_seq, Hd. reflexivity.
  - apply firstn_NoDup. apply (Permutation_NoDup (Permutation_sym Hp)). apply seq_NoDup.
  - apply Forall_forall. intros i Hi. apply firstn_In_inv in Hi.
    apply (Permutation_in _ Hp) in Hi. apply in_seq in Hi. rewrite <- Hd. lia.
Qed.
End ReferenceAtoms.

Lemma insert_by_perm key i l : Permutation (insert_by key i l) (i :: l).
Proof.
  induction l as [|j r IH]; cbn [insert_by]; [reflexivity|].
  destruct (Rleb (key j) (key i)); [|reflexivity].
  rewrite IH. apply perm_swap.
Qed.

Lemma Rargsort_perm (l : list R) : Permutation (Rargsort l) (seq 0 (length l)).
Proof.
  unfold Rargsort.
  assert (H : forall idx acc,
             Permutation (fold_left (fun acc i => insert_by (fun k => nth k l 0%R) i acc)
                                    idx acc)
                         (idx ++ acc)).
  { induction idx as [|i r IH]; intros acc; cbn [fold_left app]; [reflexivity|].
    rewrite IH, insert_by_perm. symmetry. apply Permutation_middle. }
  rewrite H, app_nil_r. reflexivity.
Qed.

(** ** Centres of mass and angles in exact arithmetic *)

Section RealFacts.

Local Open Scope R_scope.

Lemma fold_left_Rplus_acc (l : list R) (a : R) :
  fold_left Rplus l a = a + fold_left Rplus l 0.
Proof.
  revert a. induction l as [|x r IH]; intros a; cbn [fold_left]; [lra|].
  rewrite (IH (a + x)), (IH (0 + x)). lra.
Qed.

Lemma sum_list_R_cons (x : R) (l : list R) :
  sum_list Rs (x :: l) = x + sum_list Rs l.
Proof.
  unfold sum_list. cbv [num add zero Rs]. cbn [fold_left].
  rewrite fold_left_Rplus_acc. lra.
Qed.

Lemma vget_vsub_R (p d : vec3 Rs) (a : nat) :
  vget (vsub p d) a = vget p a - vget d a.
Proof.
  destruct p as [[px py] pz], d as [[dx dy] dz].
  destruct a as [|[|a]]; reflexivity.
Qed.

Lemma weighted_sum_shift (d : vec3 Rs) (a : nat) (ms : list Rs) :
  forall ps : list (vec3 Rs),
    length ms = length ps ->
    sum_list Rs (map (fun mp : Rs * vec3 Rs => mul Rs (fst mp) (vget (snd mp) a))
                     (combine ms (map (fun p => vsub p d) ps)))
    = sum_list Rs (map (fun mp : Rs * vec3 Rs => mul Rs (fst mp) (vget (snd mp) a))
                       (combine ms ps))
      - vget d a * sum_list Rs ms.
Proof.
  induction ms as [|m ms IH]; intros [|p ps] Hlen; try discriminate.
  - unfold sum_list. cbn [map combine fold_left]. cbv [num zero Rs]. lra.
  - cbn [map combine fst snd]. repeat rewrite sum_list_R_cons.
    rewrite IH by (now injection Hlen). rewrite vget_vsub_R.
    cbv [num mul Rs]. lra.
Qed.

Lemma weighted_mean_shift (d : vec3 Rs) (ms : list Rs) (ps : list (vec3 Rs)) :
  length ms = length ps -> sum_list Rs ms <> 0 ->
  weighted_mean ms (map (fun p => vsub p d) ps) = vsub (weighted_mean ms ps) d.
Proof.
  intros Hlen Hm. unfold weighted_mean. cbv beta zeta.
  rewrite (weighted_sum_shift d 0 ms ps Hlen),
          (weighted_sum_shift d 1 ms ps Hlen),
          (weighted_sum_shift d 2 ms ps Hlen).
  destruct d as [[dx dy] dz]. cbn [vget vsub vmap2 div sub Rs].
  f_equal; [f_equal|];
    match goal with |- ?x = ?y => change (@eq R x y) end;
    field; exact Hm.
Qed.

Lemma select_map A B (f : A -> B) (da : A) (db : B) (l : list A) (g : list nat) :
  Forall (fun i => (i < length l)%nat) g ->
  select db (map f l) g = map f (select da l g).
Proof.
  intros Hg. unfold select. rewrite map_map. apply map_ext_in.
  intros i Hi. rewrite Forall_forall in Hg. specialize (Hg i Hi).
  rewrite (nth_indep (map f l) db (f da)) by (now rewrite length_map).
  apply map_nth.
Qed.

Lemma vsub_vsub_R (c a : vec3 Rs) : vsub c (vsub c a) = a.
Proof.
  destruct c as [[cx cy] cz], a as [[ax ay] az].
  cbn [vsub vmap2 sub Rs]. f_equal; [f_equal|];
    match goal with |- ?x = ?y => change (@eq R x y) end; ring.
Qed.

(** After the translation of a frame the centre of mass is the anchor. *)
Lemma translation_restores_anchor (u : universe Rs) (g : list nat)
      (pos : list (vec3 Rs)) (anchor : vec3 Rs) :
  Forall (fun i => (i < length pos)%nat) g ->
  sum_list Rs (select (zero Rs) (masses u) g) <> 0 ->
  let translation_from_frame0 := vsub (com_of u g pos) anchor in
  com_of u g (map (fun p => vsub p translation_from_frame0) pos) = anchor.
Proof.
  intros Hg Hm d. unfold com_of.
  rewrite (select_map (fun p => vsub p d) (vzero Rs) (vzero Rs)) by assumption.
  rewrite weighted_mean_shift.
  - apply vsub_vsub_R.
  - unfold select. now repeat rewrite length_map.
  - exact Hm.
Qed.

Lemma norm2_R (a0 a1 : R) : norm Rs [a0; a1] = R_sqrt.sqrt (a0 * a0 + a1 * a1).
Proof.
  cbv [norm sum_list fold_left map add mul zero sqrt Rs].
  f_equal. ring.
Qed.

Lemma dot_first_axis_R (a0 a1 : R) : np_dot Rs [a0; a1] [one Rs; zero Rs] = Ok a0.
Proof.
  unfold np_dot. cbn [length Nat.eqb].
  cbv [sum_list fold_left map combine fst snd add mul zero one Rs].
  f_equal. ring.
Qed.

Lemma norm2_pos (a0 a1 : R) : a0 <> 0 \/ a1 <> 0 -> 0 < R_sqrt.sqrt (a0 * a0 + a1 * a1).
Proof. intros H. apply sqrt_lt_R0. nra. Qed.

Lemma ratio_bounds (a0 a1 : R) :
  a0 <> 0 \/ a1 <> 0 -> -1 <= a0 / R_sqrt.sqrt (a0 * a0 + a1 * a1) <= 1.
Proof.
  intros H. pose proof (norm2_pos H) as Hn.
  pose proof (sqrt_sqrt (a0 * a0 + a1 * a1) ltac:(nra)) as Hs.
  set (n := R_sqrt.sqrt (a0 * a0 + a1 * a1)) in *.
  assert (Ha : - n <= a0 <= n) by (split; nra).
  split.
  - apply Rmult_le_reg_r with n; [lra|]. unfold Rdiv.
    rewrite Rmult_assoc, Rinv_l by lra. lra.
  - apply Rmult_le_reg_r with n; [lra|]. unfold Rdiv.
    rewrite Rmult_assoc, Rinv_l by lra. lra.
Qed.

(** For an axis that is not zero the clipping changes nothing. *)
Lemma normed_dot_product_R (a0 a1 : R) :
  a0 <> 0 \/ a1 <> 0 ->
  normed_dot_product Rs [a0; a1] = Ok (a0 / R_sqrt.sqrt (a0 * a0 + a1 * a1)).
Proof.
  intros H. unfold normed_dot_product. rewrite dot_first_axis_R, norm2_R.
  pose proof (ratio_bounds H) as [Hlo Hhi].
  unfold np_clip. cbv [leb div opp one Rs].
  rewrite (Rleb_true (a := Ropp 1)) by lra.
  rewrite Rleb_true by lra. reflexivity.
Qed.

Lemma nonneg_square_inj (x y : R) : 0 <= x -> 0 <= y -> x * x = y * y -> x = y.
Proof. intros Hx Hy H. apply Rsqr_inj; assumption. Qed.

(** The angle of lines 155-157 is the one by which the reference axis has
    to be turned to lie along the positive first confined axis. *)
Lemma angle_aligns_axis (a0 a1 : R) :
  a0 <> 0 \/ a1 <> 0 ->
  exists theta,
    angle_anchor_first_axis Rnumpy [a0; a1] = Ok theta
    /\ - PI <= theta <= PI
    /\ cos theta * a0 - sin theta * a1 = R_sqrt.sqrt (a0 * a0 + a1 * a1)
    /\ sin theta * a0 + cos theta * a1 = 0.
Proof.
  intros H. unfold angle_anchor_first_axis. rewrite (normed_dot_product_R H).
  cbn [py_nth nth_error]. cbv [leb zero arccos opp Rnumpy Rs].
  pose proof (ratio_bounds H) as Hq.
  pose proof (norm2_pos H) as Hn.
  pose proof (sqrt_sqrt (a0 * a0 + a1 * a1) ltac:(nra)) as Hnn.
  set (n := R_sqrt.sqrt (a0 * a0 + a1 * a1)) in *.
  assert (Ha0 : a0 = a0 / n * n) by (field; lra).
  set (q := a0 / n) in *.
  pose proof (acos_bound q) as Hb.
  pose proof (cos_acos q Hq) as Hc.
  pose proof (sin_acos q Hq) as Hs.
  assert (Hq2 : 0 <= 1 - q²) by (unfold Rsqr; nra).
  pose proof (sqrt_sqrt _ Hq2) as Hss.
  pose proof (sqrt_pos (1 - q²)) as Hs0.
  set (s := R_sqrt.sqrt (1 - q²)) in *.
  unfold Rsqr in Hss.
  assert (Hsn : (s * n) * (s * n) = a1 * a1) by nra.
  unfold Rleb. destruct (Rle_dec a1 0) as [Ha1|Ha1].
  - assert (Hsa : s * n = - a1) by (apply nonneg_square_inj; nra).
    exists (acos q). split; [reflexivity|]. split; [lra|].
    rewrite Hc, Hs. split; nra.
  - assert (Hsa : s * n = a1) by (apply nonneg_square_inj; nra).
    exists (- acos q). split; [reflexivity|]. split; [lra|].
    rewrite cos_neg, sin_neg, Hc, Hs. split; nra.
Qed.

Lemma axial_coordinate_R (c : vec3 Rs) (pbc : list nat) (P : vec3 Rs -> bool)
      (l : list (vec3 Rs)) :
  flat_map (fun v : vec3 Rs => map (fun a => add Rs (vget v a) (vget c a)) pbc)
           (filter P (map (fun p => vsub p c) l))
  = flat_map (vtake pbc) (filter (fun p => P (vsub p c)) l).
Proof.
  induction l as [|p l IH]; [reflexivity|].
  cbn [map filter]. destruct (P (vsub p c)); [|exact IH].
  cbn [flat_map]. rewrite IH. f_equal.
  unfold vtake. apply map_ext. intros a. rewrite vget_vsub_R.
  cbv [num add Rs]. ring.
Qed.

End RealFacts.

(** * The claims *)




(** C2 (amended). Where the two pipelines wrap.  A run of the flat pipeline
    that returns has wrapped once before its loop and then, for every
    frame, loaded the frame, wrapped, translated and wrapped again: each
    translation acts on wrapped positions.  A run of the tube pipeline
    (one valid periodic direction, a solid atom, both tube parameters, a
    non-zero stride) always returns, and for every frame it has loaded the
    frame, translated, recentred, rotated, restored and only then wrapped:
    the wrap follows the rotation, but no translation of a tube run acts on
    wrapped positions, the wrap ahead of the loop being commented out. *)
Theorem wrap_placement_in_both_pipelines
        (F : Scalar) (N : Numpy F) (Cell : Type)
        (pack_into_box : Cell -> list (vec3 F) -> list (vec3 F))
        (rotation_matrix : vec3 F -> F -> mat3 F)
        (u : universe F) (topology : Cell) (cutoff : F) (s e f : Z) (w : world F) :
  (forall pbc radius len out w',
      length pbc <> 1 ->
      compute_spatial_distribution_of_atoms_on_interface
        N pack_into_box rotation_matrix u topology cutoff pbc s e f radius len w
      = (Ok out, w') ->
      exists frames,
        frames_of u s e f = Ok frames
        /\ map kind (trace w')
           = map kind (trace w) ++ KPack :: flat_map (fun _ => slab_frame_kinds) frames
        /\ wrapped_at_translations false
             (KPack :: flat_map (fun _ => slab_frame_kinds) frames) = true)
  /\ (forall a radius len,
        a < 3 -> select_atoms u solid_names <> [] -> f <> 0%Z ->
        exists frames out w',
          frames_of u s e f = Ok frames
          /\ compute_spatial_distribution_of_atoms_on_interface
               N pack_into_box rotation_matrix u topology cutoff [a] s e f
               (Some radius) (Some len) w = (Ok out, w')
          /\ map kind (trace w')
             = map kind (trace w) ++ flat_map (fun _ => tube_frame_kinds) frames
          /\ (frames <> [] ->
              forall wrapped,
                wrapped_at_translations wrapped
                  (flat_map (fun _ => tube_frame_kinds) frames) = false)).
Proof.
  split.
  - intros pbc radius len out w' Hlen Hrun.
    rewrite entry_dispatch_slab in Hrun by assumption.
    apply slab_run_trace in Hrun. destruct Hrun as (frames & Hframes & Htr).
    exists frames. split; [assumption|]. split.
    + rewrite Htr, map_app. cbn [map kind]. now rewrite slab_events_kinds.
    + cbn [wrapped_at_translations]. apply slab_kinds_wrapped.
  - intros a radius len Ha Hsolid Hf.
    destruct (tube_run_spec N pack_into_box rotation_matrix u topology cutoff
                            radius len s e w Ha Hsolid Hf)
      as (frames & liq & sol & w' & Hframes & Hrun & Htr & _).
    exists frames, (liq, sol), w'. split; [assumption|]. split; [assumption|]. split.
    + rewrite Htr, map_app. now rewrite tube_events_kinds.
    + intros Hne wrapped. now apply tube_kinds_not_wrapped.
Qed.

Lemma wrap_placement_in_both_pipelines_witness :
  (exists frames,
      frames_of slab_universe 0 2 1 = Ok frames
      /\ map kind (trace (snd (run_slab [0; 1] 0 2 1)))
         = map kind (trace (initial_world slab_universe))
           ++ KPack :: flat_map (fun _ => slab_frame_kinds) frames
      /\ wrapped_at_translations false
           (KPack :: flat_map (fun _ => slab_frame_kinds) frames) = true)
  /\ (exists frames out w',
        frames_of tube_universe 0 2 1 = Ok frames
        /\ run_entry_tube [2] 0 2 1 (Some 1%R) (Some 1%Z) = (Ok out, w')
        /\ map kind (trace w')
           = map kind (trace (initial_world tube_universe))
             ++ flat_map (fun _ => tube_frame_kinds) frames
        /\ (frames <> [] ->
            forall wrapped,
              wrapped_at_translations wrapped
                (flat_map (fun _ => tube_frame_kinds) frames) = false)).
Proof.
  split.
  - destruct (ok_run_inv (run_slab [0; 1] 0 2 1)) as [out Hout];
      [vm_compute; reflexivity|].
    apply (proj1 (wrap_placement_in_both_pipelines
                    f64_numpy pack_large_cell f64_rotation_matrix slab_universe tt
                    1%float 0 2 1 (initial_world slab_universe))
                 [0; 1] None None out (snd (run_slab [0; 1] 0 2 1))).
    + cbn. lia.
    + exact Hout.
  - apply (proj2 (wrap_placement_in_both_pipelines
                    Rnumpy Rpack_into_box Rrotation_matrix tube_universe tube_cell
                    1%R 0 2 1 (initial_world tube_universe))
                 2 1%R 1%Z).
    + lia.
    + apply tube_universe_has_solid.
    + lia.
Defined.

(** C2, counterexample. The tube of four carbon atoms, periodic along z,
    frames 0 and 1, radius 1, one unit cell: the run returns, and its
    translations do not act on wrapped positions, whether or not the
    buffer counts as wrapped when the call starts: every frame is
    translated as the trajectory delivered it. *)
Lemma tube_translates_unwrapped_positions :
  is_ok (fst (run_entry_tube [2] 0 2 1 (Some 1%R) (Some 1%Z))) = true
  /\ map kind (trace (snd (run_entry_tube [2] 0 2 1 (Some 1%R) (Some 1%Z))))
     = tube_frame_kinds ++ tube_frame_kinds
  /\ wrapped_at_translations false (tube_frame_kinds ++ tube_frame_kinds) = false
  /\ wrapped_at_translations true (tube_frame_kinds ++ tube_frame_kinds) = false.
Proof.
  assert (Ha : 2 < 3) by lia.
  assert (Hf : 1%Z <> 0%Z) by lia.
  destruct (tube_run_spec Rnumpy Rpack_into_box Rrotation_matrix tube_universe
                          tube_cell 1%R 1%R 1%Z 0 2 (initial_world tube_universe)
                          Ha tube_universe_has_solid Hf)
    as (frames & liq & sol & w' & Hframes & Hrun & Htr & _).
  rewrite tube_universe_frames in Hframes. injection Hframes as <-.
  assert (Hrun' : run_entry_tube [2] 0 2 1 (Some 1%R) (Some 1%Z) = (Ok (liq, sol), w'))
    by exact Hrun.
  rewrite Hrun'. cbn [fst snd is_ok].
  split; [reflexivity|]. split; [|split; reflexivity].
  rewrite Htr, map_app, tube_events_kinds. reflexivity.
Qed.

(** C3 (amended). In both pipelines the translation of a frame is
    subtracted from the positions of all atoms, solid and liquid alike,
    and it is the displacement of a centre of mass since the pipeline
    started; but the two pipelines take the centre of mass of different
    groups.
    One turn of the flat loop on a frame [i] of the trajectory leaves,
    whether the turn returns or raises, the wrapped frame with the translation subtracted
    from every position, wrapped again; the translation is the centre of
    mass of all atoms of the wrapped frame minus the anchor.  One turn of
    the tube loop (indices that are axes, reference atoms taken among the
    solid atoms) leaves the frame with the translation subtracted from
    every position, then recentred, rotated, restored and wrapped; the
    translation is the centre of mass of the solid atoms of the frame as
    loaded minus the anchor.
    A run of the flat pipeline, whatever its outcome, has translated the
    frames it reached by the centre of mass of all atoms (solid and
    liquid) of the wrapped frame minus the centre of mass of all atoms
    taken after the wrap ahead of the loop; the frames it reached are the
    first ones of the slice, and all of them when the run returns.  A run
    of the tube pipeline has translated each frame of the slice by the
    centre of mass of the solid atoms of the frame minus the centre of
    mass of the solid atoms ahead of the loop. *)
Theorem translation_of_each_frame
        (F : Scalar) (N : Numpy F) (Cell : Type)
        (pack_into_box : Cell -> list (vec3 F) -> list (vec3 F))
        (rotation_matrix : vec3 F -> F -> mat3 F)
        (u : universe F) (topology : Cell) (cutoff : F) (s e f : Z) (w : world F) :
  let solid := select_atoms u solid_names in
  (forall pbc not_pbc anchor count acc i w0,
      all_atoms u <> [] -> i < length (trajectory u) ->
      let wrapped := pack_into_box topology (nth i (trajectory u) []) in
      let translation_from_frame0 := vsub (com_of u (all_atoms u) wrapped) anchor in
      snd (for_frames u (slab_frame pack_into_box u topology cutoff pbc not_pbc solid
                                    (select_atoms u ["O"%string]) anchor)
                      count [i] acc w0)
      = {| positions :=
             pack_into_box topology
               (map (fun p => vsub p translation_from_frame0) wrapped);
           trace := trace w0 ++ slab_events pack_into_box u topology anchor i |})
  /\ (forall pbc n0 n1 pv anchor ref circ count acc i w0,
        solid <> [] -> i < length (trajectory u) ->
        n0 < 3 -> n1 < 3 -> Forall (fun a => a < 3) pbc ->
        Forall (fun j => j < length solid) ref ->
        let loaded := nth i (trajectory u) [] in
        let translation_from_frame0 := vsub (com_of u solid loaded) anchor in
        let translated := map (fun p => vsub p translation_from_frame0) loaded in
        let COM := com_of u (all_atoms u) translated in
        let centred := map (fun p => vsub p COM) translated in
        exists angle acc',
          angle_anchor_first_axis
            N (mean_axis0 [n0; n1]
                          (select (vzero F) (select (vzero F) centred solid) ref))
          = Ok angle
          /\ for_frames u (tube_frame N pack_into_box rotation_matrix u topology cutoff
                                      pbc [n0; n1] pv solid
                                      (select_atoms u ["O"; "H"]%string) anchor ref circ)
                        count [i] acc w0
             = (Ok acc',
                {| positions :=
                     pack_into_box topology
                       (map (fun p => vadd p COM)
                            (map (mat_vec (rotation_matrix pv angle)) centred));
                   trace := trace w0 ++ tube_events u solid anchor i |}))
  /\ (forall pbc radius len,
        length pbc <> 1 ->
        let run :=
          compute_spatial_distribution_of_atoms_on_interface
            N pack_into_box rotation_matrix u topology cutoff pbc s e f radius len w in
        exists visited,
          translations (trace (snd run))
          = translations (trace w)
            ++ map (fun i =>
                      vsub (com_of u (all_atoms u)
                                   (pack_into_box topology (nth i (trajectory u) [])))
                           (com_of u (all_atoms u)
                                   (pack_into_box topology (positions w))))
                   visited
          /\ (forall frames, frames_of u s e f = Ok frames ->
              exists k, visited = firstn k frames)
          /\ (is_ok (fst run) = true -> frames_of u s e f = Ok visited))
  /\ (forall a radius len,
        a < 3 -> solid <> [] -> f <> 0%Z ->
        exists frames out w',
          frames_of u s e f = Ok frames
          /\ compute_spatial_distribution_of_atoms_on_interface
               N pack_into_box rotation_matrix u topology cutoff [a] s e f
               (Some radius) (Some len) w = (Ok out, w')
          /\ translations (trace w')
             = translations (trace w)
               ++ map (fun i =>
                         vsub (com_of u solid (nth i (trajectory u) []))
                              (com_of u solid (positions w)))
                      frames).
Proof.
  intros solid. split; [|split; [|split]].
  - intros pbc not_pbc anchor count acc i w0 _ _.
    apply slab_iteration_world.
  - intros pbc n0 n1 pv anchor ref circ count acc i w0 _ _ _ _ _ _.
    apply tube_iteration_world.
  - intros pbc radius len Hlen run. subst run.
    rewrite entry_dispatch_slab by assumption.
    destruct (slab_run_visited pack_into_box u topology cutoff pbc s e f w)
      as (visited & pre & Htr & Hpre & Hprefix & Hok).
    exists visited. split; [|split; assumption].
    rewrite Htr, !translations_app, slab_events_translations.
    destruct Hpre as [-> | ->]; reflexivity.
  - intros a radius len Ha Hsolid Hf.
    destruct (tube_run_spec N pack_into_box rotation_matrix u topology cutoff
                            radius len s e w Ha Hsolid Hf)
      as (frames & liq & sol & w' & Hframes & Hrun & Htr & _).
    exists frames, (liq, sol), w'. split; [assumption|]. split; [assumption|].
    rewrite Htr, translations_app. now rewrite tube_events_translations.
Qed.

Lemma translation_of_each_frame_witness :
  (forall acc,
      snd (for_frames slab_universe
                      (slab_frame pack_large_cell slab_universe tt 1%float [0; 1] [2]
                                  (select_atoms slab_universe solid_names)
                                  (select_atoms slab_universe ["O"%string])
                                  (vzero f64))
                      0 [1] acc (initial_world slab_universe))
      = {| positions :=
             pack_large_cell tt
               (map (fun p =>
                       vsub p (vsub (com_of slab_universe (all_atoms slab_universe)
                                            (pack_large_cell tt slab_frame1))
                                    (vzero f64)))
                    (pack_large_cell tt slab_frame1));
           trace := trace (initial_world slab_universe)
                    ++ slab_events pack_large_cell slab_universe tt (vzero f64) 1 |})
  /\ (forall acc,
        let solid := select_atoms tube_universe solid_names in
        let delta := vsub (com_of tube_universe solid tube_frame0) (vzero Rs) in
        let translated := map (fun p => vsub p delta) tube_frame0 in
        let COM := com_of tube_universe (all_atoms tube_universe) translated in
        let centred := map (fun p => vsub p COM) translated in
        exists angle acc',
          angle_anchor_first_axis
            Rnumpy (mean_axis0 [0; 1]
                               (select (vzero Rs) (select (vzero Rs) centred solid) [0]))
          = Ok angle
          /\ for_frames tube_universe
                        (tube_frame Rnumpy Rpack_into_box Rrotation_matrix tube_universe
                                    tube_cell 1%R [2] [0; 1] (0, 0, 1)%R solid
                                    (select_atoms tube_universe ["O"; "H"]%string)
                                    (vzero Rs) [0] 1%R)
                        0 [1] acc (initial_world tube_universe)
             = (Ok acc',
                {| positions :=
                     Rpack_into_box tube_cell
                       (map (fun p => vadd p COM)
                            (map (mat_vec (Rrotation_matrix (0, 0, 1)%R angle)) centred));
                   trace := trace (initial_world tube_universe)
                            ++ tube_events tube_universe solid (vzero Rs) 1 |}))
  /\ (exists visited,
         translations (trace (snd (run_slab [0; 1; 2] 0 2 1)))
         = translations (trace (initial_world slab_universe))
           ++ map (fun i =>
                     vsub (com_of slab_universe (all_atoms slab_universe)
                                  (pack_large_cell tt (nth i (trajectory slab_universe) [])))
                          (com_of slab_universe (all_atoms slab_universe)
                                  (pack_large_cell tt
                                     (positions (initial_world slab_universe)))))
                  visited
         /\ (forall frames, frames_of slab_universe 0 2 1 = Ok frames ->
             exists k, visited = firstn k frames)
         /\ (is_ok (fst (run_slab [0; 1; 2] 0 2 1)) = true ->
             frames_of slab_universe 0 2 1 = Ok visited))
  /\ (exists frames out w',
        frames_of tube_universe 0 2 1 = Ok frames
        /\ run_entry_tube [2] 0 2 1 (Some 1%R) (Some 1%Z) = (Ok out, w')
        /\ translations (trace w')
           = translations (trace (initial_world tube_universe))
             ++ map (fun i =>
                       vsub (com_of tube_universe (select_atoms tube_universe solid_names)
                                    (nth i (trajectory tube_universe) []))
                            (com_of tube_universe
                                    (select_atoms tube_universe solid_names)
                                    (positions (initial_world tube_universe))))
                    frames).
Proof.
  split; [|split; [|split]].
  - intros acc.
    apply (proj1 (translation_of_each_frame
                    f64_numpy pack_large_cell f64_rotation_matrix slab_universe tt
                    1%float 0 2 1 (initial_world slab_universe))
                 [0; 1] [2] (vzero f64) 0 acc 1 (initial_world slab_universe)).
    + discriminate.
    + cbn. lia.
  - intros acc.
    apply (proj1 (proj2 (translation_of_each_frame
                    Rnumpy Rpack_into_box Rrotation_matrix tube_universe tube_cell
                    1%R 0 2 1 (initial_world tube_universe)))
                 [2] 0 1 (0, 0, 1)%R (vzero Rs) [0] 1%R 0 acc 1
                 (initial_world tube_universe)).
    + apply tube_universe_has_solid.
    + cbn. lia.
    + lia.
    + lia.
    + repeat constructor.
    + repeat constructor.
  - apply (proj1 (proj2 (proj2 (translation_of_each_frame
                    f64_numpy pack_large_cell f64_rotation_matrix slab_universe tt
                    1%float 0 2 1 (initial_world slab_universe))))
                 [0; 1; 2] None None).
    cbn. lia.
  - apply (proj2 (proj2 (proj2 (translation_of_each_frame
                    Rnumpy Rpack_into_box Rrotation_matrix tube_universe tube_cell
                    1%R 0 2 1 (initial_world tube_universe))))
                 2 1%R 1%Z).
    + lia.
    + apply tube_universe_has_solid.
    + lia.
Defined.

(** C3, counterexample. The three-atom flat system, frames 0 and 1: the
    only solid atom, the carbon, is at the same place in both frames, so
    that the displacement of the solid centre of mass is zero; one oxygen
    moves along x between the frames, and the x component of the
    translation applied to frame 1 is not zero. *)
Lemma slab_translation_is_not_the_solid_displacement :
  let solid := select_atoms slab_universe solid_names in
  let solid_displacement i :=
    vsub (com_of slab_universe solid (nth i (trajectory slab_universe) []))
         (com_of slab_universe solid (nth 0 (trajectory slab_universe) [])) in
  is_ok (fst (run_slab [0; 1] 0 2 1)) = true
  /\ translations (trace (snd (run_slab [0; 1] 0 2 1))) <> map solid_displacement [0; 1].
Proof.
  split; [vm_compute; reflexivity|].
  intros H.
  apply (f_equal (fun l => PrimFloat.eqb (vget (nth 1 l (vzero f64)) 0) 0%float)) in H.
  vm_compute in H. discriminate.
Qed.

(** C4 (the code departs from the claim). The flat pipeline compares the
    signed offset along the confined direction with the cutoff, not its
    magnitude.  On the three-atom flat system with cutoff 1.0, every atom
    well inside the cell, the second oxygen lies 5.0 below the solid centre
    of mass: its offset is -5.0, of magnitude 5.0 > 1.0, and its periodic
    coordinates (8, 9) are recorded all the same, next to those (6, 7) of
    the oxygen 0.5 above the solid. *)
Theorem slab_contact_test_is_one_sided :
  let solid := select_atoms slab_universe solid_names in
  let offset :=
    sub f64 (vget (nth 2 slab_frame0 (vzero f64)) 2)
            (vget (com_of slab_universe solid slab_frame0) 2) in
  PrimFloat.eqb offset (-5)%float = true
  /\ PrimFloat.leb (PrimFloat.abs offset) 1%float = false
  /\ PrimFloat.leb offset 1%float = true
  /\ fst (run_slab [0; 1] 0 1 1)
     = Ok (@Build_arr2 f64 2 [[6; 7]; [8; 9]]%float,
           @Build_arr2 f64 2 [[4; 5]]%float).
Proof. repeat split; vm_compute; reflexivity. Qed.

(** C5 (the code departs from the claim). The liquid positions are first
    reduced to the periodic columns and then indexed a second time with
    the axis numbers themselves.  With periodic directions [0; 2] or
    [1; 2] the second indexing asks for column 2 of a two-column array
    and the run raises IndexError in its first frame.  With [1; 0] the
    first reduction gives the oxygen at (6, 7) as (7, 6) and the second
    indexing swaps it back: the liquid rows come out in the order (x, y)
    although the first periodic axis is y, while the solid row, indexed
    once, is in the order (y, x).  Only [0; 1] gives the two components as
    claimed. *)
Theorem slab_periodic_columns_are_indexed_twice :
  fst (run_slab [0; 2] 0 1 1) = Err IndexError
  /\ fst (run_slab [1; 2] 0 1 1) = Err IndexError
  /\ map kind (trace (snd (run_slab [0; 2] 0 1 1)))
     = [KPack; KLoadFrame; KPack; KTranslate; KPack]
  /\ vtake [1; 0] (nth 1 slab_frame0 (vzero f64)) = [7; 6]%float
  /\ fst (run_slab [1; 0] 0 1 1)
     = Ok (@Build_arr2 f64 2 [[6; 7]; [8; 9]]%float,
           @Build_arr2 f64 2 [[5; 4]]%float).
Proof. repeat split; vm_compute; reflexivity. Qed.

(** C6 (the code departs from the claim). The solid array is allocated
    ahead of the loop with [int((end_frame - start_frame) / frame_frequency)]
    blocks, whereas the loop visits the frames of the slice that exist.
    Frames 0 to 3 with stride 2: one block for the two frames 0 and 2, and
    the assignment of the second raises IndexError.  Frames 0 to 5 of the
    three-frame trajectory: five blocks for three frames, and the run
    returns five solid rows for F = 3 and S = 1. *)
Theorem slab_solid_rows_follow_the_requested_range :
  frames_of slab_universe 0 3 2 = Ok [0; 2]
  /\ py_int_div (3 - 0) 2 = Ok 1%Z
  /\ fst (run_slab [0; 1] 0 3 2) = Err IndexError
  /\ frames_of slab_universe 0 5 1 = Ok [0; 1; 2]
  /\ length (select_atoms slab_universe solid_names) = 1
  /\ (exists liq sol,
        fst (run_slab [0; 1] 0 5 1) = Ok (liq, sol) /\ length (rows sol) = 5).
Proof.
  repeat split; try (vm_compute; reflexivity).
  do 2 eexists. split; vm_compute; reflexivity.
Qed.

(** C7 (amended). The ratio of the dot product with (1, 0) to the norm of
    the reference axis does go through [np.clip] with the bounds -1 and 1
    before [arccos], for every two-component axis, and the angle is that
    arccosine or its opposite.  What the clipping gives is a value between
    -1 and 1, or the ratio itself when the ratio compares with neither
    bound: a NaN passes through, and nothing else looks at the norm.  In
    exact arithmetic the axis (1, 0) has angle 0, and in binary64 a ratio
    one unit in the last place above 1 is clipped to 1. *)
Theorem rotation_angle_clips_the_ratio
        (F : Scalar) (N : Numpy F) (a0 a1 : F) :
  leb F (opp F (one F)) (one F) = true ->
  leb F (opp F (one F)) (opp F (one F)) = true ->
  leb F (one F) (one F) = true ->
  (let ratio :=
     div F (add F (add F (zero F) (mul F a0 (one F))) (mul F a1 (zero F)))
           (norm F [a0; a1]) in
   let q := np_clip F ratio (opp F (one F)) (one F) in
   normed_dot_product F [a0; a1] = Ok q
   /\ angle_anchor_first_axis N [a0; a1]
      = Ok (if leb F a1 (zero F) then arccos N q else opp F (arccos N q))
   /\ clipped_or_unordered F ratio (opp F (one F)) (one F) q)
  /\ angle_anchor_first_axis Rnumpy [1; 0]%R = Ok 0%R
  /\ np_clip f64 0x1.0000000000001p+0%float (-1)%float 1%float = 1%float.
Proof.
  intros Hlh Hll Hhh. split; [|split].
  - split; [reflexivity|]. split; [reflexivity|].
    now apply np_clip_cases.
  - exact angle_aligned.
  - vm_compute. reflexivity.
Qed.

Lemma rotation_angle_clips_the_ratio_witness :
  (let ratio :=
     div f64 (add f64 (add f64 (zero f64) (mul f64 3%float (one f64)))
                      (mul f64 4%float (zero f64)))
             (norm f64 [3; 4]%float) in
   let q := np_clip f64 ratio (opp f64 (one f64)) (one f64) in
   normed_dot_product f64 [3; 4]%float = Ok q
   /\ angle_anchor_first_axis f64_numpy [3; 4]%float
      = Ok (if leb f64 4%float (zero f64)
            then arccos f64_numpy q else opp f64 (arccos f64_numpy q))
   /\ clipped_or_unordered f64 ratio (opp f64 (one f64)) (one f64) q)
  /\ angle_anchor_first_axis Rnumpy [1; 0]%R = Ok 0%R
  /\ np_clip f64 0x1.0000000000001p+0%float (-1)%float 1%float = 1%float.
Proof.
  apply (rotation_angle_clips_the_ratio f64_numpy 3%float 4%float);
    vm_compute; reflexivity.
Defined.

(** C7, counterexample. A reference axis of norm zero: the ratio is 0/0,
    [np.clip] returns it unchanged, and [arccos] receives a NaN; no error
    is raised and nothing keeps the norm away from zero. *)
Lemma zero_axis_ratio_is_nan :
  ratio_is_nan (normed_dot_product f64 [0; 0]%float) = true
  /\ is_ok (angle_anchor_first_axis f64_numpy [0; 0]%float) = true.
Proof. split; vm_compute; reflexivity. Qed.

(** C8. In every frame of the tube loop, which always completes, the
    liquid atoms whose coordinates are appended are those whose offset
    from the solid centre of mass, taken after the normalisation of the
    frame, has a norm over the two confined components that the cutoff
    does not exceed: [cutoff <= norm].  Over the reals that norm is the
    Euclidean one. *)
Theorem tube_contact_is_norm_at_least_cutoff
        (F : Scalar) (N : Numpy F) (Cell : Type)
        (pack_into_box : Cell -> list (vec3 F) -> list (vec3 F))
        (rotation_matrix : vec3 F -> F -> mat3 F)
        (u : universe F) (topology : Cell) (cutoff : F)
        (pbc : list nat) (n0 n1 : nat) (pv : vec3 F) (solid liquid : list nat)
        (anchor : vec3 F) (ref : list nat) (circ : F) (count : nat)
        (acc : tube_acc F) (w : world F) :
  (exists acc' w',
      tube_frame N pack_into_box rotation_matrix u topology cutoff pbc [n0; n1] pv
                 solid liquid anchor ref circ count acc w = (Ok acc', w')
      /\ let solid_COM := com_of u solid (positions w') in
         let offsets :=
           map (fun p => vsub p solid_COM) (select (vzero F) (positions w') liquid) in
         let contact :=
           filter (fun v => leb F cutoff (norm F [vget v n0; vget v n1])) offsets in
         liquid_contact_coord1 (tube_liquid acc')
         = liquid_contact_coord1 (tube_liquid acc)
           ++ flat_map (fun v => map (fun a => add F (vget v a) (vget solid_COM a)) pbc)
                       contact
         /\ liquid_contact_coord2 (tube_liquid acc')
            = liquid_contact_coord2 (tube_liquid acc)
              ++ map (fun v => angular_component N circ v n1 n0) contact)
  /\ (forall (c : R) (v : vec3 Rs),
        tube_in_contact (F := Rs) c [n0; n1] v = true
        <-> (c <= R_sqrt.sqrt (vget v n0 * vget v n0 + vget v n1 * vget v n1))%R).
Proof.
  split.
  - destruct (tube_frame_spec N pack_into_box rotation_matrix u topology cutoff pbc
                              n0 n1 pv solid liquid anchor ref circ count acc w)
      as (w' & Hrun & _).
    eexists; exists w'. split; [exact Hrun|].
    split; reflexivity.
  - intros c v. apply tube_in_contact_R.
Qed.




(** C10. Every frame of the tube loop completes and appends as many values
    to the axial list of the liquid as to its angular list, and one value
    per solid atom to each solid list.  Hence a tube run with one valid
    periodic direction, at least one solid atom, both tube parameters and
    a non-zero stride returns: the two column-stackings succeed, both
    arrays have two columns, every row two entries, and the solid array
    has frames * solids rows. *)
Theorem tube_accumulators_grow_together
        (F : Scalar) (N : Numpy F) (Cell : Type)
        (pack_into_box : Cell -> list (vec3 F) -> list (vec3 F))
        (rotation_matrix : vec3 F -> F -> mat3 F)
        (u : universe F) (topology : Cell) (cutoff : F) (a : nat) :
  a < 3 ->
  select_atoms u solid_names <> [] ->
  (forall n0 n1 pv solid liquid anchor ref circ count acc w,
      exists acc' w',
        tube_frame N pack_into_box rotation_matrix u topology cutoff [a] [n0; n1] pv
                   solid liquid anchor ref circ count acc w = (Ok acc', w')
        /\ equal_growth acc acc' 1 (length solid))
  /\ (forall radius len s e f w,
        f <> 0%Z ->
        exists frames liq sol w',
          frames_of u s e f = Ok frames
          /\ compute_spatial_distribution_of_atoms_on_interface
               N pack_into_box rotation_matrix u topology cutoff [a] s e f
               (Some radius) (Some len) w = (Ok (liq, sol), w')
          /\ (ncols liq = 2 /\ Forall (fun r => length r = 2) (rows liq))
          /\ (ncols sol = 2 /\ Forall (fun r => length r = 2) (rows sol))
          /\ length (rows sol) = length frames * length (select_atoms u solid_names)).
Proof.
  intros Ha Hsolid. split.
  - intros n0 n1 pv solid liquid anchor ref circ count acc w.
    destruct (tube_frame_spec N pack_into_box rotation_matrix u topology cutoff [a]
                              n0 n1 pv solid liquid anchor ref circ count acc w)
      as (w' & Hrun & _).
    eexists; exists w'. split; [exact Hrun|].
    apply tube_frame_appends_growth.
  - intros radius len s e f w Hf.
    destruct (tube_run_spec N pack_into_box rotation_matrix u topology cutoff
                            radius len s e w Ha Hsolid Hf)
      as (frames & liq & sol & w' & Hframes & Hrun & _ & Hliq & Hsol & Hrows).
    exists frames, liq, sol, w'. repeat split; try assumption; tauto.
Qed.

Lemma tube_accumulators_grow_together_witness :
  exists frames liq sol w',
    frames_of tube_universe 0 2 1 = Ok frames
    /\ run_entry_tube [2] 0 2 1 (Some 1%R) (Some 1%Z) = (Ok (liq, sol), w')
    /\ (ncols liq = 2 /\ Forall (fun r => length r = 2) (rows liq))
    /\ (ncols sol = 2 /\ Forall (fun r => length r = 2) (rows sol))
    /\ length (rows sol)
       = length frames * length (select_atoms tube_universe solid_names).
Proof.
  apply (proj2 (tube_accumulators_grow_together
                  Rnumpy Rpack_into_box Rrotation_matrix tube_universe tube_cell
                  1%R (a := 2) ltac:(lia) tube_universe_has_solid)
               1%R 1%Z 0%Z 2%Z 1%Z (initial_world tube_universe)).
  lia.
Defined.

(** * Further properties of the two pipelines *)

(** X1. A run of the flat pipeline that returns gives a solid array whose
    number of rows is the number of blocks allocated ahead of the loop,
    [int((end_frame - start_frame) / frame_frequency)], times the number
    of solid atoms; and it has visited at most that many frames. *)
Theorem slab_solid_rows_are_the_allocated_ones
        (F : Scalar) (N : Numpy F) (Cell : Type)
        (pack_into_box : Cell -> list (vec3 F) -> list (vec3 F))
        (rotation_matrix : vec3 F -> F -> mat3 F)
        (u : universe F) (topology : Cell) (cutoff : F) (pbc : list nat)
        (s e f : Z) (radius : option F) (len : option Z) (w w' : world F)
        (liq sol : arr2 F) :
  length pbc <> 1 ->
  compute_spatial_distribution_of_atoms_on_interface
    N pack_into_box rotation_matrix u topology cutoff pbc s e f radius len w
  = (Ok (liq, sol), w') ->
  exists frames,
    frames_of u s e f = Ok frames
    /\ length frames <= Z.to_nat (Z.quot (e - s) f)
    /\ length (rows sol)
       = Z.to_nat (Z.quot (e - s) f) * length (select_atoms u solid_names).
Proof.
  intros Hlen Hrun. rewrite entry_dispatch_slab in Hrun by assumption.
  now apply slab_run_rows in Hrun.
Qed.

Lemma slab_solid_rows_are_the_allocated_ones_witness :
  exists liq sol w' frames,
    run_slab [0; 1] 0 5 1 = (Ok (liq, sol), w')
    /\ frames_of slab_universe 0 5 1 = Ok frames
    /\ length frames <= Z.to_nat (Z.quot (5 - 0) 1)
    /\ length (rows sol)
       = Z.to_nat (Z.quot (5 - 0) 1) * length (select_atoms slab_universe solid_names).
Proof.
  destruct (ok_run_inv (run_slab [0; 1] 0 5 1)) as [[liq sol] Hout];
    [vm_compute; reflexivity|].
  exists liq, sol, (snd (run_slab [0; 1] 0 5 1)).
  destruct (slab_solid_rows_are_the_allocated_ones
              f64_numpy pack_large_cell f64_rotation_matrix slab_universe tt
              1%float [0; 1] 0 5 1 None None (initial_world slab_universe)
              ltac:(cbn; lia) Hout) as (frames & H1 & H2 & H3).
  exists frames. auto.
Defined.

(** X2. Within the trajectory and with a positive stride, the flat
    pipeline only returns for a range whose length is a multiple of the
    stride: otherwise the loop visits one frame more than there are
    blocks and the run raises. *)
Theorem slab_range_must_be_a_multiple_of_the_stride
        (F : Scalar) (N : Numpy F) (Cell : Type)
        (pack_into_box : Cell -> list (vec3 F) -> list (vec3 F))
        (rotation_matrix : vec3 F -> F -> mat3 F)
        (u : universe F) (topology : Cell) (cutoff : F) (pbc : list nat)
        (s e f : Z) (radius : option F) (len : option Z) (w : world F) :
  length pbc <> 1 ->
  (0 <= s <= e)%Z -> (e <= Z.of_nat (length (trajectory u)))%Z -> (0 < f)%Z ->
  ((e - s) mod f <> 0)%Z ->
  is_ok (fst (compute_spatial_distribution_of_atoms_on_interface
                N pack_into_box rotation_matrix u topology cutoff pbc s e f
                radius len w)) = false.
Proof.
  intros Hlen Hse Hen Hf Hmod.
  rewrite entry_dispatch_slab by assumption.
  destruct (_compute_distribution_for_system_with_two_periodic_directions
              pack_into_box u topology cutoff pbc s e f w)
    as [[[liq sol]|err] w'] eqn:Hrun; [|reflexivity].
  exfalso. apply slab_run_rows in Hrun.
  destruct Hrun as (frames & Hframes & Hle & _).
  rewrite frames_of_range in Hframes by assumption.
  injection Hframes as <-. rewrite length_map, length_seq in Hle.
  rewrite Z.quot_div_nonneg, Z2Nat.inj_div in Hle by lia.
  assert (Hm : Z.to_nat (e - s) mod Z.to_nat f <> 0).
  { rewrite <- Z2Nat.inj_mod by lia. intros H0.
    apply Hmod. pose proof (Z.mod_pos_bound (e - s) f Hf). lia. }
  pose proof (@ceil_exceeds_floor (Z.to_nat (e - s)) (Z.to_nat f) ltac:(lia) Hm).
  lia.
Qed.

Lemma slab_range_must_be_a_multiple_of_the_stride_witness :
  is_ok (fst (run_slab [0; 1] 0 3 2)) = false.
Proof.
  apply (slab_range_must_be_a_multiple_of_the_stride
           f64_numpy pack_large_cell f64_rotation_matrix slab_universe tt 1%float
           [0; 1] (s := 0) (e := 3) (f := 2) None None
           (initial_world slab_universe));
    cbn; lia.
Defined.

(** X3. When [int((end_frame - start_frame) / frame_frequency)] is zero
    or negative (an empty range, a range shorter than the stride, an
    end counted from the end of the trajectory), the flat pipeline
    never returns a result. *)
Theorem slab_short_range_never_returns
        (F : Scalar) (N : Numpy F) (Cell : Type)
        (pack_into_box : Cell -> list (vec3 F) -> list (vec3 F))
        (rotation_matrix : vec3 F -> F -> mat3 F)
        (u : universe F) (topology : Cell) (cutoff : F) (pbc : list nat)
        (s e f : Z) (radius : option F) (len : option Z) (w : world F) :
  length pbc <> 1 ->
  (Z.quot (e - s) f <= 0)%Z ->
  is_ok (fst (compute_spatial_distribution_of_atoms_on_interface
                N pack_into_box rotation_matrix u topology cutoff pbc s e f
                radius len w)) = false.
Proof.
  intros Hlen Hq. rewrite entry_dispatch_slab by assumption.
  now apply slab_run_short_range.
Qed.

Lemma slab_short_range_never_returns_witness :
  is_ok (fst (run_slab [0; 1] 0 (-1) 1)) = false.
Proof.
  apply (slab_short_range_never_returns
           f64_numpy pack_large_cell f64_rotation_matrix slab_universe tt 1%float
           [0; 1] 0 (-1) 1 None None
           (initial_world slab_universe));
    cbn; lia.
Defined.

(** X4. With a zero stride the flat pipeline raises ZeroDivisionError at
    the allocation of line 274, after it has wrapped the positions in
    place and before any frame is loaded. *)
Theorem slab_zero_stride_raises_after_the_wrap
        (F : Scalar) (N : Numpy F) (Cell : Type)
        (pack_into_box : Cell -> list (vec3 F) -> list (vec3 F))
        (rotation_matrix : vec3 F -> F -> mat3 F)
        (u : universe F) (topology : Cell) (cutoff : F) (pbc : list nat)
        (s e : Z) (radius : option F) (len : option Z) (w : world F) :
  length pbc <> 1 ->
  forallb (fun a => a <? 3) pbc = true ->
  compute_spatial_distribution_of_atoms_on_interface
    N pack_into_box rotation_matrix u topology cutoff pbc s e 0 radius len w
  = (Err ZeroDivisionError,
     {| positions := pack_into_box topology (positions w);
        trace := trace w ++ [EvPack F] |}).
Proof.
  intros Hlen Hpbc. rewrite entry_dispatch_slab by assumption.
  now apply slab_run_zero_stride.
Qed.

Lemma slab_zero_stride_raises_after_the_wrap_witness :
  run_slab [0; 1] 0 2 0
  = (Err ZeroDivisionError,
     {| positions := pack_large_cell tt (positions (initial_world slab_universe));
        trace := trace (initial_world slab_universe) ++ [EvPack f64] |}).
Proof.
  apply (slab_zero_stride_raises_after_the_wrap
           f64_numpy pack_large_cell f64_rotation_matrix slab_universe tt 1%float
           [0; 1] 0 2 None None (initial_world slab_universe)).
  - cbn. lia.
  - reflexivity.
Defined.

(** X5. With two periodic directions of which one is axis 2 (or beyond),
    a run of the flat pipeline that has a frame to visit raises: no
    frame of its loop completes. *)
Theorem slab_third_axis_never_completes
        (F : Scalar) (N : Numpy F) (Cell : Type)
        (pack_into_box : Cell -> list (vec3 F) -> list (vec3 F))
        (rotation_matrix : vec3 F -> F -> mat3 F)
        (u : universe F) (topology : Cell) (cutoff : F) (a b : nat)
        (s e f : Z) (radius : option F) (len : option Z) (w : world F)
        (frames : list nat) :
  2 <= a \/ 2 <= b ->
  frames_of u s e f = Ok frames -> frames <> [] ->
  is_ok (fst (compute_spatial_distribution_of_atoms_on_interface
                N pack_into_box rotation_matrix u topology cutoff [a; b] s e f
                radius len w)) = false.
Proof.
  intros Hab Hframes Hne. rewrite entry_dispatch_slab by (cbn; lia).
  now apply slab_run_fails_third_axis with (frames := frames).
Qed.

Lemma slab_third_axis_never_completes_witness :
  is_ok (fst (run_slab [1; 2] 0 2 1)) = false.
Proof.
  apply (slab_third_axis_never_completes
           f64_numpy pack_large_cell f64_rotation_matrix slab_universe tt 1%float
           (a := 1) (b := 2) 0 2 1 None None
           (initial_world slab_universe) (frames := [0; 1])).
  - right. lia.
  - reflexivity.
  - discriminate.
Defined.

(** X6. A range that asks for frames but starts beyond the end of the
    trajectory makes the flat pipeline return without visiting a frame:
    no liquid point, and for the solid the zeros allocated ahead of the
    loop. *)
Theorem slab_range_beyond_the_trajectory_returns_zeros
        (F : Scalar) (N : Numpy F) (Cell : Type)
        (pack_into_box : Cell -> list (vec3 F) -> list (vec3 F))
        (rotation_matrix : vec3 F -> F -> mat3 F)
        (u : universe F) (topology : Cell) (cutoff : F) (pbc : list nat)
        (s e f : Z) (radius : option F) (len : option Z) (w : world F) :
  length pbc <> 1 ->
  forallb (fun a => a <? 3) pbc = true ->
  frames_of u s e f = Ok [] ->
  (0 < Z.quot (e - s) f)%Z ->
  compute_spatial_distribution_of_atoms_on_interface
    N pack_into_box rotation_matrix u topology cutoff pbc s e f radius len w
  = (Ok ({| ncols := 2; rows := [] |},
         {| ncols := 2;
            rows := repeat [zero F; zero F]
                           (Z.to_nat (Z.quot (e - s) f)
                            * length (select_atoms u solid_names)) |}),
     {| positions := pack_into_box topology (positions w);
        trace := trace w ++ [EvPack F] |}).
Proof.
  intros Hlen Hpbc Hframes Hq. rewrite entry_dispatch_slab by assumption.
  now apply slab_run_no_frames.
Qed.

Lemma slab_range_beyond_the_trajectory_returns_zeros_witness :
  run_slab [0; 1] 3 5 1
  = (Ok (@Build_arr2 f64 2 [],
         @Build_arr2 f64 2
           (repeat [zero f64; zero f64]
                   (Z.to_nat (Z.quot (5 - 3) 1)
                    * length (select_atoms slab_universe solid_names)))),
     {| positions := pack_large_cell tt (positions (initial_world slab_universe));
        trace := trace (initial_world slab_universe) ++ [EvPack f64] |}).
Proof.
  apply (slab_range_beyond_the_trajectory_returns_zeros
           f64_numpy pack_large_cell f64_rotation_matrix slab_universe tt 1%float
           [0; 1] 3 5 1 None None (initial_world slab_universe)).
  - cbn. lia.
  - reflexivity.
  - reflexivity.
  - cbn. lia.
Defined.



(** X8. The tube pipeline with a periodic index of 3 or more raises
    IndexError when it marks the periodic direction, ahead of everything
    else: whatever its other arguments, and the universe is left as it
    was. *)
Theorem tube_setup_raises_index_error
        (F : Scalar) (N : Numpy F) (Cell : Type)
        (pack_into_box : Cell -> list (vec3 F) -> list (vec3 F))
        (rotation_matrix : vec3 F -> F -> mat3 F)
        (u : universe F) (topology : Cell) (cutoff : F) (a : nat)
        (s e f : Z) (radius : option F) (len : option Z) (w : world F) :
  3 <= a ->
  compute_spatial_distribution_of_atoms_on_interface
    N pack_into_box rotation_matrix u topology cutoff [a] s e f radius len w
  = (Err IndexError, w).
Proof. apply tube_index_out_of_range. Qed.

Lemma tube_setup_raises_index_error_witness :
  run_entry_tube [3] 0 2 1 (Some 1%R) (Some 1%Z)
  = (Err IndexError, initial_world tube_universe).
Proof.
  apply (tube_setup_raises_index_error
           Rnumpy Rpack_into_box Rrotation_matrix tube_universe tube_cell 1%R
           (a := 3) 0 2 1 (Some 1%R) (Some 1%Z) (initial_world tube_universe)).
  lia.
Defined.

(** X9. The tube pipeline with a zero stride, when the requested range
    is the whole trajectory (the slice then is the trajectory's own
    iterator, which refuses a zero step): it raises ValueError when it
    takes the stride, and leaves the universe as it was. *)
Theorem tube_zero_stride_raises_before_any_change
        (F : Scalar) (N : Numpy F) (Cell : Type)
        (pack_into_box : Cell -> list (vec3 F) -> list (vec3 F))
        (rotation_matrix : vec3 F -> F -> mat3 F)
        (u : universe F) (topology : Cell) (cutoff : F) (a : nat)
        (s e : Z) (radius : F) (len : Z) (w : world F) :
  a < 3 -> select_atoms u solid_names <> [] ->
  whole_trajectory s e (length (trajectory u)) = true ->
  compute_spatial_distribution_of_atoms_on_interface
    N pack_into_box rotation_matrix u topology cutoff [a] s e 0
    (Some radius) (Some len) w
  = (Err ValueError, w).
Proof. apply tube_zero_stride. Qed.

Lemma tube_zero_stride_raises_before_any_change_witness :
  whole_trajectory 0 2 (length (trajectory tube_universe)) = true
  /\ run_entry_tube [2] 0 2 0 (Some 1%R) (Some 1%Z)
     = (Err ValueError, initial_world tube_universe).
Proof.
  split; [reflexivity|].
  apply (tube_zero_stride_raises_before_any_change
           Rnumpy Rpack_into_box Rrotation_matrix tube_universe tube_cell 1%R
           (a := 2) 0 2 1%R 1%Z (initial_world tube_universe)).
  - lia.
  - apply tube_universe_has_solid.
  - reflexivity.
Defined.

(** X10. [_get_atom_ids_on_same_tube_axis], for a group that is not
    empty, a tube length that is not negative and an [argsort] that
    returns a permutation of the indices: it returns
    min(2 * tube_length, number of solid atoms) indices into the solid
    group, all different and all in range, and changes nothing. *)
Theorem reference_atoms_are_distinct_and_in_range
        (F : Scalar) (N : Numpy F) (solid : list nat) (len : Z)
        (not_pbc : list nat) (w : world F) :
  (forall l, Permutation (argsort N l) (seq 0 (length l))) ->
  solid <> [] -> (0 <= len)%Z ->
  exists ids,
    _get_atom_ids_on_same_tube_axis N solid (Some len) not_pbc w = (Ok ids, w)
    /\ length ids = Nat.min (Z.to_nat (2 * len)) (length solid)
    /\ NoDup ids
    /\ Forall (fun i => i < length solid) ids.
Proof. apply get_atom_ids_spec. Qed.

Lemma reference_atoms_are_distinct_and_in_range_witness :
  exists ids,
    _get_atom_ids_on_same_tube_axis Rnumpy [0; 1; 2; 3] (Some 1%Z) [0; 1]
                                    (initial_world tube_universe)
    = (Ok ids, initial_world tube_universe)
    /\ length ids = Nat.min (Z.to_nat (2 * 1)) (length [0; 1; 2; 3])
    /\ NoDup ids
    /\ Forall (fun i => i < length [0; 1; 2; 3]) ids.
Proof.
  apply (reference_atoms_are_distinct_and_in_range
           Rnumpy (solid := [0; 1; 2; 3]) (len := 1%Z) [0; 1]
           (initial_world tube_universe)).
  - exact Rargsort_perm.
  - discriminate.
  - lia.
Defined.

(** X11. The frames visited for [0 <= start <= end] within the
    trajectory and a positive stride: start, start + stride, ... as long
    as they stay below end; their number is the range divided by the
    stride, rounded up. *)
Theorem frames_visited_by_a_run
        (F : Scalar) (u : universe F) (s e f : Z) :
  (0 <= s <= e)%Z -> (e <= Z.of_nat (length (trajectory u)))%Z -> (0 < f)%Z ->
  exists frames,
    frames_of u s e f = Ok frames
    /\ frames = map (fun j => Z.to_nat s + j * Z.to_nat f) (seq 0 (length frames))
    /\ length frames = (Z.to_nat (e - s) + Z.to_nat f - 1) / Z.to_nat f
    /\ Forall (fun i => Z.to_nat s <= i < Z.to_nat e) frames.
Proof.
  intros Hse Hen Hf. eexists. split; [now apply frames_of_range|].
  rewrite length_map, length_seq. split; [reflexivity|]. split; [reflexivity|].
  apply Forall_forall. intros i Hi. apply in_map_iff in Hi.
  destruct Hi as (j & <- & Hj). apply in_seq in Hj.
  assert (Hf' : 0 < Z.to_nat f) by lia.
  set (k := Z.to_nat f) in *. set (m := Z.to_nat (e - s)) in *.
  assert (Hm : Z.to_nat e = Z.to_nat s + m) by (unfold m; lia).
  assert (Hjk : j * k + 1 <= m).
  { pose proof (Nat.div_mod_eq (m + k - 1) k) as Hd.
    pose proof (Nat.mod_upper_bound (m + k - 1) k ltac:(lia)) as Hb.
    nia. }
  lia.
Qed.

Lemma frames_visited_by_a_run_witness :
  exists frames,
    frames_of slab_universe 0 3 2 = Ok frames
    /\ frames = map (fun j => Z.to_nat 0 + j * Z.to_nat 2) (seq 0 (length frames))
    /\ length frames = (Z.to_nat (3 - 0) + Z.to_nat 2 - 1) / Z.to_nat 2
    /\ Forall (fun i => Z.to_nat 0 <= i < Z.to_nat 3) frames.
Proof.
  apply (frames_visited_by_a_run slab_universe (s := 0) (e := 3) (f := 2)); cbn; lia.
Defined.

(** X12. In exact arithmetic, for a group of atoms in range whose total
    mass is not zero: once the translation of a frame is subtracted from
    the positions, the centre of mass of the group is the anchor. *)
Theorem translation_puts_the_centre_of_mass_on_the_anchor
        (u : universe Rs) (g : list nat) (pos : list (vec3 Rs)) (anchor : vec3 Rs) :
  Forall (fun i => i < length pos) g ->
  sum_list Rs (select (zero Rs) (masses u) g) <> 0%R ->
  let translation_from_frame0 := vsub (com_of u g pos) anchor in
  com_of u g (map (fun p => vsub p translation_from_frame0) pos) = anchor.
Proof. apply translation_restores_anchor. Qed.

Lemma translation_puts_the_centre_of_mass_on_the_anchor_witness :
  let translation_from_frame0 :=
    vsub (com_of tube_universe [0; 1; 2; 3] tube_frame0) ((5, 5, 5)%R : vec3 Rs) in
  com_of tube_universe [0; 1; 2; 3]
         (map (fun p => vsub p translation_from_frame0) tube_frame0)
  = ((5, 5, 5)%R : vec3 Rs).
Proof.
  apply (translation_puts_the_centre_of_mass_on_the_anchor
           tube_universe (g := [0; 1; 2; 3]) tube_frame0
           ((5, 5, 5)%R : vec3 Rs)).
  - repeat constructor; cbn [length tube_frame0]; lia.
  - cbv [sum_list select map nth masses tube_universe fold_left add zero Rs num].
    lra.
Defined.

(** X13. In exact arithmetic, for a reference axis that is not zero: the
    clipping leaves the ratio as it is, the angle lies between -PI and
    PI, and it is the angle by which the axis must be turned to lie
    along the positive first confined axis. *)
Theorem rotation_angle_aligns_the_reference_axis (a0 a1 : R) :
  a0 <> 0%R \/ a1 <> 0%R ->
  exists theta : R,
    angle_anchor_first_axis Rnumpy [a0; a1] = Ok theta
    /\ normed_dot_product Rs [a0; a1]
       = Ok (a0 / R_sqrt.sqrt (a0 * a0 + a1 * a1))%R
    /\ (- PI <= theta <= PI)%R
    /\ (cos theta * a0 - sin theta * a1 = R_sqrt.sqrt (a0 * a0 + a1 * a1))%R
    /\ (sin theta * a0 + cos theta * a1 = 0)%R.
Proof.
  intros H. destruct (angle_aligns_axis H) as (theta & H1 & H2 & H3 & H4).
  exists theta. split; [exact H1|]. split; [now apply normed_dot_product_R|].
  auto.
Qed.

Lemma rotation_angle_aligns_the_reference_axis_witness :
  exists theta : R,
    angle_anchor_first_axis Rnumpy [0; 1]%R = Ok theta
    /\ normed_dot_product Rs [0; 1]%R
       = Ok (0 / R_sqrt.sqrt (0 * 0 + 1 * 1))%R
    /\ (- PI <= theta <= PI)%R
    /\ (cos theta * 0 - sin theta * 1 = R_sqrt.sqrt (0 * 0 + 1 * 1))%R
    /\ (sin theta * 0 + cos theta * 1 = 0)%R.
Proof.
  apply (rotation_angle_aligns_the_reference_axis (a0 := 0%R) (a1 := 1%R)).
  right. lra.
Defined.

(** X14. In exact arithmetic, adding the solid centre of mass back to
    the offset of a liquid atom gives its own position: for the liquid
    atoms kept by a frame of the tube loop the axial coordinates
    appended are their position components along the periodic
    directions, as for the solid atoms. *)
Theorem tube_axial_coordinate_is_the_position_itself
        (Cell : Type)
        (pack_into_box : Cell -> list (vec3 Rs) -> list (vec3 Rs))
        (rotation_matrix : vec3 Rs -> R -> mat3 Rs)
        (u : universe Rs) (topology : Cell) (cutoff : R)
        (pbc : list nat) (n0 n1 : nat) (pv : vec3 Rs) (solid liquid : list nat)
        (anchor : vec3 Rs) (ref : list nat) (circ : R) (count : nat)
        (acc : tube_acc Rs) (w : world Rs) :
  exists acc' w',
    tube_frame Rnumpy pack_into_box rotation_matrix u topology cutoff pbc [n0; n1] pv
               solid liquid anchor ref circ count acc w = (Ok acc', w')
    /\ let solid_COM := com_of u solid (positions w') in
       liquid_contact_coord1 (tube_liquid acc')
       = liquid_contact_coord1 (tube_liquid acc)
         ++ flat_map (vtake pbc)
                     (filter (fun p : vec3 Rs =>
                                tube_in_contact (F := Rs) cutoff [n0; n1]
                                                (vsub p solid_COM))
                             (select (vzero Rs) (positions w') liquid))
       /\ solid_coord1 acc'
          = solid_coord1 acc
            ++ flat_map (vtake pbc) (select (vzero Rs) (positions w') solid).
Proof.
  destruct (tube_frame_spec Rnumpy pack_into_box rotation_matrix u topology cutoff pbc
                            n0 n1 pv solid liquid anchor ref circ count acc w)
    as (w' & Hrun & _).
  eexists; exists w'. split; [exact Hrun|].
  unfold tube_frame_appends.
  cbn [tube_liquid liquid_contact_coord1 solid_coord1].
  split; [|reflexivity].
  f_equal. apply axial_coordinate_R.
Qed.
